(** * rv8: the ELF inspector [riscv-parse-elf]

    A shallow embedding of [src/app/riscv-parse-elf.cc]: the colorizer, the
    name resolver, the branch-label scanner, the disassembly printer, the
    command-line front end and the driver, followed by the properties of
    the disassembly pipeline.

    Conventions.
    - [riscv_ptr] and every 64-bit quantity is a [Z]; arithmetic that the
      C++ performs on 64-bit machine words is wrapped with [wrap64].
    - [std::map<riscv_ptr,std::string>] is a [gmap Z string].
    - A member function that can touch the object is a function from the
      object to a result and the new object.
    - The two [while (pc < end)] walks take a fuel argument; [None] means
      that the fuel ran out before the loop condition became false.
    - Everything the program does to the outside world, and every write to
      the label table, is recorded in program order as a list of [event]s. *)

From Stdlib Require Import ZArith Lia Ascii.
From stdpp Require Import base option list strings gmap.

Local Open Scope Z_scope.

(** ** Machine words *)

Abbreviation riscv_ptr := Z (only parsing).

Definition wrap64 (z : Z) : Z := z mod 2 ^ 64.

(** ** printf conversions used by the file *)

Definition nl : string := String "010"%char EmptyString.

Definition digit_char (d : Z) : ascii := ascii_of_nat (48 + Z.to_nat d).

(** Decimal digits of a non-negative number, most significant first.  Twenty
    digits are enough for any 64-bit value. *)
Fixpoint decimal_digits (fuel : nat) (n : Z) (acc : string) : string :=
  match fuel with
  | O => acc
  | S fuel' =>
      let acc' := String (digit_char (n mod 10)) acc in
      if n / 10 =? 0 then acc' else decimal_digits fuel' (n / 10) acc'
  end.

Fixpoint repeat_char (c : ascii) (n : nat) : string :=
  match n with
  | O => EmptyString
  | S n' => String c (repeat_char c n')
  end.

(** [%lu]: the argument read as an unsigned 64-bit number. *)
Definition fmt_lu (n : Z) : string := decimal_digits 20 (wrap64 n) EmptyString.

(** [%06lu] *)
Definition fmt_06lu (n : Z) : string :=
  let s := fmt_lu n in repeat_char "0"%char (6 - String.length s) +:+ s.

(** [%2lu] *)
Definition fmt_2lu (n : Z) : string :=
  let s := fmt_lu n in repeat_char " "%char (2 - String.length s) +:+ s.

(** [%-111s] *)
Definition fmt_left111 (s : string) : string :=
  s +:+ repeat_char " "%char (111 - String.length s).

(** [s.c_str()] read by [%s]: the characters of a [std::string] up to its
    first NUL. *)
Fixpoint c_str (s : string) : string :=
  match s with
  | EmptyString => EmptyString
  | String c s' => if Ascii.eqb c "000"%char then EmptyString else String c (c_str s')
  end.

(** [snprintf(buf, size, ...)]: at most [size - 1] characters are stored. *)
Definition snprintf (size : nat) (text : string) : string :=
  String.substring 0 (size - 1) text.

(** [snprintf(branch_label, sizeof(branch_label), "LOC_%06lu", n)] with
    [char branch_label[32]]. *)
Definition format_branch_label (branch_num : Z) : string :=
  snprintf 32 ("LOC_" +:+ fmt_06lu branch_num).

(** ** The container, as far as this file reads it

    The declarations live in [riscv-elf.h] and [riscv-elf-file.h]; only the
    members that [riscv-parse-elf.cc] touches are kept. *)

Record Elf64_Ehdr := { e_machine : Z }.

Record Elf64_Shdr := {
  sh_name_str : string;
  sh_flags : Z;
  sh_addr : Z;
  sh_offset : Z;
  sh_size : Z
}.

Record Elf64_Sym := {
  st_name_str : string;
  st_value : Z
}.

Record elf_file := {
  ehdr : Elf64_Ehdr;
  shdrs : list Elf64_Shdr;
  symbols : list Elf64_Sym;
  buf : riscv_ptr
}.

(** [elf.offset(off)]: the address of byte [off] of the file image. *)
Definition elf_offset (e : elf_file) (off : Z) : riscv_ptr := wrap64 (buf e + off).

(** Modelled from the spec: [elf_sym_by_addr] (declared in [riscv-elf-file.h],
    not part of the sources) is an exact-address match in the symbol table,
    the first such match in symbol-table order. *)
Definition elf_sym_by_addr (e : elf_file) (addr : Z) : option Elf64_Sym :=
  List.find (fun s => st_value s =? addr) (symbols e).

(** Modelled from the spec: [elf_sym_by_name] fetches a symbol by exact
    name. *)
Definition elf_sym_by_name (e : elf_file) (name : string) : option Elf64_Sym :=
  List.find (fun s => String.eqb (st_name_str s) name) (symbols e).

Definition elf_sym_name (e : elf_file) (s : Elf64_Sym) : string := st_name_str s.

Definition elf_shdr_name (e : elf_file) (i : nat) : string :=
  match shdrs e !! i with
  | Some sh => sh_name_str sh
  | None => EmptyString
  end.

(** ** The decoder's record

    [riscv_decode] is declared in [riscv-decode.h].  The scanner reads its
    [type] and [imm] members; [riscv_inst_type_other] stands for every
    enumerator of [riscv_inst_type] but the two the scanner names. *)

Inductive riscv_inst_type :=
  | riscv_inst_type_sb
  | riscv_inst_type_uj
  | riscv_inst_type_other (tag : nat).

Record riscv_decode := {
  dec_inst : Z;
  dec_type : riscv_inst_type;
  dec_imm : Z
}.

(** ** The program object *)

Record riscv_parse_elf := {
  elf : elf_file;
  filename : string;
  branch_labels : gmap Z string;
  enable_color : bool;
  elf_header : bool;
  section_headers : bool;
  program_headers : bool;
  symbol_table : bool;
  disassebly : bool;
  help_or_error : bool
}.

Definition set_elf (e : elf_file) (st : riscv_parse_elf) : riscv_parse_elf :=
  {| elf := e; filename := filename st; branch_labels := branch_labels st;
     enable_color := enable_color st; elf_header := elf_header st;
     section_headers := section_headers st; program_headers := program_headers st;
     symbol_table := symbol_table st; disassebly := disassebly st;
     help_or_error := help_or_error st |}.

Definition set_filename (f : string) (st : riscv_parse_elf) : riscv_parse_elf :=
  {| elf := elf st; filename := f; branch_labels := branch_labels st;
     enable_color := enable_color st; elf_header := elf_header st;
     section_headers := section_headers st; program_headers := program_headers st;
     symbol_table := symbol_table st; disassebly := disassebly st;
     help_or_error := help_or_error st |}.

Definition set_branch_labels (m : gmap Z string) (st : riscv_parse_elf) : riscv_parse_elf :=
  {| elf := elf st; filename := filename st; branch_labels := m;
     enable_color := enable_color st; elf_header := elf_header st;
     section_headers := section_headers st; program_headers := program_headers st;
     symbol_table := symbol_table st; disassebly := disassebly st;
     help_or_error := help_or_error st |}.

Definition set_enable_color (b : bool) (st : riscv_parse_elf) : riscv_parse_elf :=
  {| elf := elf st; filename := filename st; branch_labels := branch_labels st;
     enable_color := b; elf_header := elf_header st;
     section_headers := section_headers st; program_headers := program_headers st;
     symbol_table := symbol_table st; disassebly := disassebly st;
     help_or_error := help_or_error st |}.

Definition set_elf_header (b : bool) (st : riscv_parse_elf) : riscv_parse_elf :=
  {| elf := elf st; filename := filename st; branch_labels := branch_labels st;
     enable_color := enable_color st; elf_header := b;
     section_headers := section_headers st; program_headers := program_headers st;
     symbol_table := symbol_table st; disassebly := disassebly st;
     help_or_error := help_or_error st |}.

Definition set_section_headers (b : bool) (st : riscv_parse_elf) : riscv_parse_elf :=
  {| elf := elf st; filename := filename st; branch_labels := branch_labels st;
     enable_color := enable_color st; elf_header := elf_header st;
     section_headers := b; program_headers := program_headers st;
     symbol_table := symbol_table st; disassebly := disassebly st;
     help_or_error := help_or_error st |}.

Definition set_program_headers (b : bool) (st : riscv_parse_elf) : riscv_parse_elf :=
  {| elf := elf st; filename := filename st; branch_labels := branch_labels st;
     enable_color := enable_color st; elf_header := elf_header st;
     section_headers := section_headers st; program_headers := b;
     symbol_table := symbol_table st; disassebly := disassebly st;
     help_or_error := help_or_error st |}.

Definition set_symbol_table (b : bool) (st : riscv_parse_elf) : riscv_parse_elf :=
  {| elf := elf st; filename := filename st; branch_labels := branch_labels st;
     enable_color := enable_color st; elf_header := elf_header st;
     section_headers := section_headers st; program_headers := program_headers st;
     symbol_table := b; disassebly := disassebly st;
     help_or_error := help_or_error st |}.

Definition set_disassebly (b : bool) (st : riscv_parse_elf) : riscv_parse_elf :=
  {| elf := elf st; filename := filename st; branch_labels := branch_labels st;
     enable_color := enable_color st; elf_header := elf_header st;
     section_headers := section_headers st; program_headers := program_headers st;
     symbol_table := symbol_table st; disassebly := b;
     help_or_error := help_or_error st |}.

Definition set_help_or_error (b : bool) (st : riscv_parse_elf) : riscv_parse_elf :=
  {| elf := elf st; filename := filename st; branch_labels := branch_labels st;
     enable_color := enable_color st; elf_header := elf_header st;
     section_headers := section_headers st; program_headers := program_headers st;
     symbol_table := symbol_table st; disassebly := disassebly st;
     help_or_error := b |}.

(** The object as [main] constructs it: the default member initializers. *)
Definition riscv_parse_elf_init : riscv_parse_elf :=
  {| elf := {| ehdr := {| e_machine := 0 |}; shdrs := []; symbols := []; buf := 0 |};
     filename := EmptyString; branch_labels := ∅;
     enable_color := false; elf_header := false; section_headers := false;
     program_headers := false; symbol_table := false; disassebly := false;
     help_or_error := false |}.

(** ** Observable actions, in program order *)

Inductive extern_printer :=
  | elf_print_header_info_fn
  | elf_print_section_headers_fn
  | elf_print_program_headers_fn
  | elf_print_symbol_table_fn
  | print_options_fn.

Inductive event :=
  | EvPrintf (text : string)
  | EvExtern (f : extern_printer) (text : string)
  | EvDisasm (pc : riscv_ptr) (labels : gmap Z string) (text : string)
  | EvLabelsClear
  | EvLabelStore (addr : Z) (name : string)
  | EvLoad (file : string)
  | EvExit (code : Z).

Inductive termination :=
  | Returned (code : Z)
  | Exited (code : Z)
  | LoadFailed.

(** [cmdline_option] of [riscv-cmdline.h]: the callback may change the
    object it captured by reference. *)
Record cmdline_option := {
  short_name : string;
  long_name : string;
  has_arg : bool;
  help_text : string;
  option_fn : string -> riscv_parse_elf -> bool * riscv_parse_elf
}.

(** ** What the file takes from the rest of rv8

    None of these is defined in [riscv-parse-elf.cc]: the decoder and the
    disassembler ([riscv-decode.h], [riscv-disasm.h]), the container
    printers and loader ([riscv-elf-format.h], [riscv-elf-file.h]), the
    option parser ([riscv-cmdline.h]), the colour macros ([riscv-color.h]),
    two ELF constants ([riscv-elf.h]) and the terminal probe
    [isatty(fileno(stdout))].  The development is parametric in all of
    them.  Routines that write to standard output return the text they
    write.

    The decoder reads the file image, which nothing writes during a run,
    and overwrites the record it is handed: it is a function of the
    position alone, giving the record and the next position.  The
    disassembler updates the history deque it is handed and is given the
    resolver and the colorizer bound to the object.  [elf_load] gives
    [None] when [elf.load] does not return (an unreadable or malformed
    file ends the program). *)

Class Externals := {
  riscv_decode_instruction : riscv_ptr -> riscv_decode * riscv_ptr;
  riscv_decode_decompress : riscv_decode -> riscv_decode;
  riscv_disasm_instruction :
    riscv_decode -> list riscv_decode -> riscv_ptr -> riscv_ptr -> riscv_ptr ->
    riscv_ptr -> (riscv_ptr -> option string) -> (string -> string) ->
    list riscv_decode * string;
  elf_load : string -> option elf_file;
  elf_print_header_info : elf_file -> (string -> string) -> string;
  elf_print_section_headers : elf_file -> (string -> string) -> string;
  elf_print_program_headers : elf_file -> (string -> string) -> string;
  elf_print_symbol_table : elf_file -> (string -> string) -> string;
  process_options :
    list cmdline_option -> list string -> riscv_parse_elf ->
    (list string * bool) * riscv_parse_elf;
  print_options : list cmdline_option -> string;
  isatty_stdout : bool;
  EM_RISCV : Z;
  SHF_EXECINSTR : Z;
  _COLOR_BEGIN : string;
  _COLOR_SEP : string;
  _COLOR_END : string;
  _COLOR_RESET : string;
  _COLOR_BOLD : string;
  _COLOR_UNDERSCORE : string;
  _COLOR_FG_WHITE : string;
  _COLOR_FG_MAGENTA : string;
  _COLOR_FG_CYAN : string;
  _COLOR_FG_GREEN : string;
  _COLOR_FG_YELLOW : string;
  _COLOR_BG_BLACK : string
}.

(** [std::map] access, as the two members the file could have used.
    [find] leaves the map alone; [operator[]] creates a missing entry. *)
Definition map_find (m : gmap Z string) (k : Z) : option string * gmap Z string :=
  (m !! k, m).

Definition map_subscript (m : gmap Z string) (k : Z) : string * gmap Z string :=
  match m !! k with
  | Some v => (v, m)
  | None => (EmptyString, <[k := EmptyString]> m)
  end.

Section Program.
Context {ext : Externals}.

(** *** [colorize] *)
Definition colorize (st : riscv_parse_elf) (type : string) : string :=
  if negb (enable_color st) || negb isatty_stdout then EmptyString
  else if String.eqb type "header" then
    _COLOR_BEGIN +:+ _COLOR_BOLD +:+ _COLOR_SEP +:+ _COLOR_FG_WHITE +:+ _COLOR_SEP
      +:+ _COLOR_BG_BLACK +:+ _COLOR_END
  else if String.eqb type "title" then
    _COLOR_BEGIN +:+ _COLOR_BOLD +:+ _COLOR_SEP +:+ _COLOR_FG_WHITE +:+ _COLOR_SEP
      +:+ _COLOR_BG_BLACK +:+ _COLOR_END
  else if String.eqb type "legend" then
    _COLOR_BEGIN +:+ _COLOR_BOLD +:+ _COLOR_SEP +:+ _COLOR_FG_MAGENTA +:+ _COLOR_END
  else if String.eqb type "opcode" then
    _COLOR_BEGIN +:+ _COLOR_BOLD +:+ _COLOR_SEP +:+ _COLOR_FG_CYAN +:+ _COLOR_END
  else if String.eqb type "location" then
    _COLOR_BEGIN +:+ _COLOR_FG_GREEN +:+ _COLOR_END
  else if String.eqb type "address" then
    _COLOR_BEGIN +:+ _COLOR_FG_YELLOW +:+ _COLOR_END
  else if String.eqb type "symbol" then
    _COLOR_BEGIN +:+ _COLOR_UNDERSCORE +:+ _COLOR_END
  else if String.eqb type "reset" then _COLOR_RESET
  else EmptyString.

(** *** [symlookup]: [nullptr] is [None] *)
Definition symlookup (st : riscv_parse_elf) (addr : riscv_ptr)
  : option string * riscv_parse_elf :=
  match elf_sym_by_addr (elf st) addr with
  | Some sym => (Some (elf_sym_name (elf st) sym), st)
  | None =>
      let '(bli, m) := map_find (branch_labels st) addr in
      match bli with
      | Some name => (Some name, set_branch_labels m st)
      | None => (None, set_branch_labels m st)
      end
  end.

(** *** [scan_branch_labels(start, end, pc_offset)] *)

Definition is_branch_type (t : riscv_inst_type) : bool :=
  match t with
  | riscv_inst_type_sb | riscv_inst_type_uj => true
  | riscv_inst_type_other _ => false
  end.

(** [addr = pc - pc_offset + dec.imm], stored in a [uint64_t]. *)
Definition branch_target (pc pc_offset imm : Z) : Z := wrap64 (pc - pc_offset + imm).

(** The record the scanner classifies: decoded, then decompressed. *)
Definition scan_decode (pc : riscv_ptr) : riscv_decode :=
  riscv_decode_decompress (fst (riscv_decode_instruction pc)).

Definition next_pc_of (pc : riscv_ptr) : riscv_ptr :=
  snd (riscv_decode_instruction pc).

(** One turn of the loop body: the [switch (dec.type)].  [branch_num] is a
    [ssize_t] that starts at 1 and grows by one per stored label; it is
    printed with [%lu]. *)
Definition scan_step (pc pc_offset : riscv_ptr) (branch_num : Z) (st : riscv_parse_elf)
  : Z * riscv_parse_elf * list event :=
  let dec := scan_decode pc in
  match dec_type dec with
  | riscv_inst_type_sb
  | riscv_inst_type_uj =>
      let addr := branch_target pc pc_offset (dec_imm dec) in
      let branch_label := format_branch_label branch_num in
      (branch_num + 1,
       set_branch_labels (<[addr := branch_label]> (branch_labels st)) st,
       [EvLabelStore addr branch_label])
  | riscv_inst_type_other _ => (branch_num, st, [])
  end.

Fixpoint scan_loop (fuel : nat) (end_ pc_offset pc : riscv_ptr) (branch_num : Z)
    (st : riscv_parse_elf) : option (riscv_parse_elf * list event) :=
  if pc <? end_ then
    match fuel with
    | O => None
    | S fuel' =>
        let next_pc := next_pc_of pc in
        let '(branch_num', st', log) := scan_step pc pc_offset branch_num st in
        match scan_loop fuel' end_ pc_offset next_pc branch_num' st' with
        | Some (st'', log') => Some (st'', log ++ log')
        | None => None
        end
    end
  else Some (st, []).

Definition scan_branch_labels_range (fuel : nat) (start end_ pc_offset : riscv_ptr)
    (st : riscv_parse_elf) : option (riscv_parse_elf * list event) :=
  scan_loop fuel end_ pc_offset start 1 st.

(** *** [scan_branch_labels()] *)

Definition is_exec (shdr : Elf64_Shdr) : bool :=
  negb (Z.land (sh_flags shdr) SHF_EXECINSTR =? 0).

Fixpoint scan_sections (fuel : nat) (e : elf_file) (l : list Elf64_Shdr)
    (st : riscv_parse_elf) : option (riscv_parse_elf * list event) :=
  match l with
  | [] => Some (st, [])
  | shdr :: rest =>
      if is_exec shdr then
        let offset := elf_offset e (sh_offset shdr) in
        match scan_branch_labels_range fuel offset (wrap64 (offset + sh_size shdr))
                (wrap64 (offset - sh_addr shdr)) st with
        | Some (st', log) =>
            match scan_sections fuel e rest st' with
            | Some (st'', log') => Some (st'', log ++ log')
            | None => None
            end
        | None => None
        end
      else scan_sections fuel e rest st
  end.

Definition scan_branch_labels (fuel : nat) (st : riscv_parse_elf)
  : option (riscv_parse_elf * list event) :=
  match scan_sections fuel (elf st) (shdrs (elf st)) (set_branch_labels ∅ st) with
  | Some (st', log) => Some (st', EvLabelsClear :: log)
  | None => None
  end.

(** *** [print_disassembly(start, end, pc_offset, gp)] *)

Fixpoint print_loop (fuel : nat) (end_ pc_offset gp pc : riscv_ptr)
    (dec_hist : list riscv_decode) (st : riscv_parse_elf) : option (list event) :=
  if pc <? end_ then
    match fuel with
    | O => None
    | S fuel' =>
        let '(dec, next_pc) := riscv_decode_instruction pc in
        let '(dec_hist', text) :=
          riscv_disasm_instruction dec dec_hist pc next_pc pc_offset gp
            (fun a => fst (symlookup st a)) (colorize st) in
        match print_loop fuel' end_ pc_offset gp next_pc dec_hist' st with
        | Some log' => Some (EvDisasm pc (branch_labels st) text :: log')
        | None => None
        end
    end
  else Some [].

Definition print_disassembly_range (fuel : nat) (start end_ pc_offset gp : riscv_ptr)
    (st : riscv_parse_elf) : option (list event) :=
  print_loop fuel end_ pc_offset gp start [] st.

(** *** [print_disassembly()] *)

Definition section_title (st : riscv_parse_elf) (i : nat) : string :=
  colorize st "title" +:+ "Section[" +:+ fmt_2lu (Z.of_nat i) +:+ "] "
    +:+ fmt_left111 (elf_shdr_name (elf st) i) +:+ colorize st "reset" +:+ nl.

Fixpoint print_sections (fuel : nat) (gp : riscv_ptr) (i : nat) (l : list Elf64_Shdr)
    (st : riscv_parse_elf) : option (list event) :=
  match l with
  | [] => Some []
  | shdr :: rest =>
      if is_exec shdr then
        let offset := elf_offset (elf st) (sh_offset shdr) in
        match print_disassembly_range fuel offset (wrap64 (offset + sh_size shdr))
                (wrap64 (offset - sh_addr shdr)) gp st with
        | Some log =>
            match print_sections fuel gp (S i) rest st with
            | Some log' => Some (EvPrintf (section_title st i) :: log ++ log')
            | None => None
            end
        | None => None
        end
      else print_sections fuel gp (S i) rest st
  end.

Definition print_disassembly (fuel : nat) (st : riscv_parse_elf) : option (list event) :=
  let gp_sym := elf_sym_by_name (elf st) "_gp" in
  let gp := match gp_sym with Some s => wrap64 (st_value s) | None => 0 end in
  print_sections fuel gp 0 (shdrs (elf st)) st.

(** *** [parse_commandline] *)

Definition options : list cmdline_option :=
  [ {| short_name := "-c"; long_name := "--color"; has_arg := false;
       help_text := "Enable Color";
       option_fn := fun _ st => (true, set_enable_color true st) |};
    {| short_name := "-e"; long_name := "--print-elf-header"; has_arg := false;
       help_text := "Print ELF header";
       option_fn := fun _ st => (true, set_elf_header true st) |};
    {| short_name := "-s"; long_name := "--print-section-headers"; has_arg := false;
       help_text := "Print Section headers";
       option_fn := fun _ st => (true, set_section_headers true st) |};
    {| short_name := "-p"; long_name := "--print-program-headers"; has_arg := false;
       help_text := "Print Program headers";
       option_fn := fun _ st => (true, set_program_headers true st) |};
    {| short_name := "-t"; long_name := "--print-symbol-table"; has_arg := false;
       help_text := "Print Symbol Table";
       option_fn := fun _ st => (true, set_symbol_table true st) |};
    {| short_name := "-d"; long_name := "--print-disassembly"; has_arg := false;
       help_text := "Print Disassembly";
       option_fn := fun _ st => (true, set_disassebly true st) |};
    {| short_name := "-a"; long_name := "--print-all"; has_arg := false;
       help_text := "Print All";
       option_fn := fun _ st =>
         (true,
          set_elf_header true (set_section_headers true (set_program_headers true
            (set_symbol_table true (set_disassebly true st))))) |};
    {| short_name := "-h"; long_name := "--help"; has_arg := false;
       help_text := "Show help";
       option_fn := fun _ st => (true, set_help_or_error true st) |} ].

Definition argv0 (argv : list string) : string := nth 0 argv EmptyString.

Definition no_output_requested (st : riscv_parse_elf) : bool :=
  negb (elf_header st) && negb (section_headers st) && negb (program_headers st)
    && negb (symbol_table st) && negb (disassebly st).

(** [inr log]: the program left through [exit(9)]; [inl (st, log)]: the
    function returned. *)
Definition parse_commandline (argv : list string) (st : riscv_parse_elf)
  : (riscv_parse_elf * list event) + list event :=
  let '(result, st) := process_options options argv st in
  let '(st, log) :=
    if negb (snd result) then (set_help_or_error true st, [])
    else if negb (length (fst result) =? 1)%nat then
      (set_help_or_error true st,
       [EvPrintf (argv0 argv +:+ ": wrong number of arguments" +:+ nl)])
    else (st, []) in
  let st := set_help_or_error (help_or_error st || no_output_requested st) st in
  if help_or_error st then
    inr (log ++ [EvPrintf ("usage: " +:+ argv0 argv +:+ " [<options>] <elf_file>" +:+ nl);
                 EvExtern print_options_fn (print_options options);
                 EvExit 9])
  else inl (set_filename (nth 0 (fst result) EmptyString) st, log).

(** *** [print_heading]

    The heading is a [std::string] printed through [heading.c_str()], so
    [%s] writes it up to its first NUL; the dash count uses
    [heading.length()] in [size_t] arithmetic. *)

Definition print_heading (st : riscv_parse_elf) (heading : string) : string :=
  nl +:+ colorize st "header" +:+ "---[ " +:+ c_str heading +:+ " ]"
    +:+ repeat_char "-"%char (Z.to_nat (wrap64 (116 - Z.of_nat (String.length heading))))
    +:+ colorize st "reset" +:+ nl +:+ nl.

(** *** [run] *)

Inductive completion := Completed | LoadFailure.

Definition print_if (b : bool) (st : riscv_parse_elf) (heading : string)
    (f : extern_printer) (text : string) : list event :=
  if b then [EvPrintf (print_heading st heading); EvExtern f text] else [].

Definition run_disassembly (fuel : nat) (st : riscv_parse_elf) : option (list event) :=
  match scan_branch_labels fuel st with
  | Some (st', log) =>
      match print_disassembly fuel st' with
      | Some log' => Some (EvPrintf (print_heading st "Disassembly") :: log ++ log')
      | None => None
      end
  | None => None
  end.

(** The four container sections of [run], in the order it prints them. *)
Definition run_container_sections (st : riscv_parse_elf) : list event :=
  print_if (elf_header st) st "ELF Header" elf_print_header_info_fn
    (elf_print_header_info (elf st) (colorize st))
  ++ print_if (section_headers st) st "Section Headers" elf_print_section_headers_fn
       (elf_print_section_headers (elf st) (colorize st))
  ++ print_if (program_headers st) st "Program Headers" elf_print_program_headers_fn
       (elf_print_program_headers (elf st) (colorize st))
  ++ print_if (symbol_table st) st "Symbol Table" elf_print_symbol_table_fn
       (elf_print_symbol_table (elf st) (colorize st)).

Definition run (fuel : nat) (st : riscv_parse_elf) : option (list event * completion) :=
  match elf_load (filename st) with
  | None => Some ([EvLoad (filename st)], LoadFailure)
  | Some e =>
      let st := set_elf e st in
      let log := EvLoad (filename st) :: run_container_sections st in
      if disassebly st && (e_machine (ehdr (elf st)) =? EM_RISCV) then
        match run_disassembly fuel st with
        | Some log' => Some (log ++ log' ++ [EvPrintf nl], Completed)
        | None => None
        end
      else Some (log ++ [EvPrintf nl], Completed)
  end.

(** *** [main] *)

Definition main (fuel : nat) (argv : list string) : option (list event * termination) :=
  match parse_commandline argv riscv_parse_elf_init with
  | inr log => Some (log, Exited 9)
  | inl (st, log) =>
      match run fuel st with
      | Some (log', Completed) => Some (log ++ log', Returned 0)
      | Some (log', LoadFailure) => Some (log ++ log', LoadFailed)
      | None => None
      end
  end.

(** ** Vocabulary of the properties *)

(** The positions a walk from [start] decodes before it reaches [end_]. *)
Inductive visited (end_ : riscv_ptr) : riscv_ptr -> riscv_ptr -> Prop :=
  | visited_first pc : pc < end_ -> visited end_ pc pc
  | visited_later start pc :
      start < end_ -> visited end_ (next_pc_of start) pc -> visited end_ start pc.

(** The three arguments [scan_branch_labels()] and [print_disassembly()]
    compute for a section. *)
Definition region_start (e : elf_file) (shdr : Elf64_Shdr) : riscv_ptr :=
  elf_offset e (sh_offset shdr).

Definition region_end (e : elf_file) (shdr : Elf64_Shdr) : riscv_ptr :=
  wrap64 (region_start e shdr + sh_size shdr).

Definition region_pc_offset (e : elf_file) (shdr : Elf64_Shdr) : riscv_ptr :=
  wrap64 (region_start e shdr - sh_addr shdr).

(** The decoder advances at every position of the region. *)
Definition decoder_advances (start end_ : riscv_ptr) : Prop :=
  forall pc, start <= pc < end_ -> pc < next_pc_of pc.

(** The walk over an executable section ends within [fuel] turns. *)
Definition section_walk_ends (fuel : nat) (e : elf_file) (shdr : Elf64_Shdr) : Prop :=
  is_exec shdr = true ->
  decoder_advances (region_start e shdr) (region_end e shdr)
  /\ (Z.to_nat (region_end e shdr - region_start e shdr) <= fuel)%nat.

End Program.

(** A write to the label table. *)
Definition label_write (e : event) : Prop :=
  match e with
  | EvLabelsClear | EvLabelStore _ _ => True
  | _ => False
  end.

(** What the printer does: text, and disassembler calls whose resolver is
    bound to the table [tbl]. *)
Definition printer_event (tbl : gmap Z string) (e : event) : Prop :=
  match e with
  | EvPrintf _ => True
  | EvDisasm _ t _ => t = tbl
  | _ => False
  end.

(** Neither a write to the label table nor a call of the disassembler. *)
Definition no_disassembly (e : event) : Prop :=
  match e with
  | EvLabelsClear | EvLabelStore _ _ | EvDisasm _ _ _ => False
  | _ => True
  end.

(** The text an event writes to standard output. *)
Definition event_text (e : event) : string :=
  match e with
  | EvPrintf text | EvExtern _ text | EvDisasm _ _ text => text
  | _ => EmptyString
  end.

Definition output_text (log : list event) : string :=
  foldr (fun e out => event_text e +:+ out) EmptyString log.

(** The text holds the byte that starts an escape sequence. *)
Fixpoint has_esc (s : string) : bool :=
  match s with
  | EmptyString => false
  | String c s' => Ascii.eqb c "027"%char || has_esc s'
  end.

(** Option callbacks applied one after the other, each with its
    argument. *)
Definition apply_callbacks (l : list (cmdline_option * string)) (st : riscv_parse_elf)
  : riscv_parse_elf :=
  foldl (fun st p => (option_fn p.1 p.2 st).2) st l.

(** The table that a sequence of logged writes produces from [m]. *)
Definition replay_event (m : gmap Z string) (e : event) : gmap Z string :=
  match e with
  | EvLabelsClear => ∅
  | EvLabelStore addr name => <[addr := name]> m
  | _ => m
  end.

Definition replay (log : list event) (m : gmap Z string) : gmap Z string :=
  foldl replay_event m log.

(** Reading a decimal numeral back, most significant digit first. *)
Definition digit_value (c : ascii) : Z := Z.of_nat (nat_of_ascii c) - 48.

Fixpoint decimal_value_from (s : string) (acc : Z) : Z :=
  match s with
  | EmptyString => acc
  | String c s' => decimal_value_from s' (10 * acc + digit_value c)
  end.

Definition decimal_value (s : string) : Z := decimal_value_from s 0.

(** The section titles that [print_disassembly()] writes. *)
Definition is_section_title {ext : Externals} (st : riscv_parse_elf) (e : event) : Prop :=
  exists i, e = EvPrintf (section_title st i).

(** The flags and members that only [parse_commandline] and [run] set. *)
Definition same_outside_labels (st st' : riscv_parse_elf) : Prop :=
  elf st' = elf st /\ filename st' = filename st
  /\ enable_color st' = enable_color st /\ elf_header st' = elf_header st
  /\ section_headers st' = section_headers st
  /\ program_headers st' = program_headers st
  /\ symbol_table st' = symbol_table st /\ disassebly st' = disassebly st
  /\ help_or_error st' = help_or_error st.

(** ** A small container to run the program on

    A three-instruction [.text] section loaded at [0x10000], from a file
    image that sits at address [0x1000]; every instruction is four bytes
    long.  The jump at the first position and the branch at the second
    both target [0x10008], the branch at the third targets [0x10004]. *)

Module Sample.

Definition text_shdr : Elf64_Shdr :=
  {| sh_name_str := ".text"; sh_flags := 6; sh_addr := 65536; sh_offset := 0; sh_size := 12 |}.

Definition data_shdr : Elf64_Shdr :=
  {| sh_name_str := ".data"; sh_flags := 3; sh_addr := 69632; sh_offset := 12; sh_size := 8 |}.

Definition sample_symbols : list Elf64_Sym :=
  [ {| st_name_str := "main"; st_value := 65536 |};
    {| st_name_str := "loop"; st_value := 65544 |};
    {| st_name_str := "_gp"; st_value := 70000 |};
    {| st_name_str := "loop_alias"; st_value := 65544 |} ].

Definition riscv_elf : elf_file :=
  {| ehdr := {| e_machine := 243 |}; shdrs := [text_shdr; data_shdr];
     symbols := sample_symbols; buf := 4096 |}.

Definition x86_elf : elf_file :=
  {| ehdr := {| e_machine := 62 |}; shdrs := [text_shdr; data_shdr];
     symbols := sample_symbols; buf := 4096 |}.

Definition load (file : string) : option elf_file :=
  if String.eqb file "a.out" then Some riscv_elf
  else if String.eqb file "x86.out" then Some x86_elf
  else None.

(** Four-byte instructions. *)
Definition decode4 (pc : riscv_ptr) : riscv_decode * riscv_ptr :=
  (if pc =? 4096 then {| dec_inst := 111; dec_type := riscv_inst_type_uj; dec_imm := 8 |}
   else if pc =? 4100 then {| dec_inst := 99; dec_type := riscv_inst_type_sb; dec_imm := 4 |}
   else if pc =? 4104 then {| dec_inst := 99; dec_type := riscv_inst_type_sb; dec_imm := -4 |}
   else {| dec_inst := 19; dec_type := riscv_inst_type_other 0; dec_imm := 0 |},
   pc + 4).

(** A decoder that reports no forward progress. *)
Definition decode_stuck (pc : riscv_ptr) : riscv_decode * riscv_ptr :=
  ({| dec_inst := 0; dec_type := riscv_inst_type_other 0; dec_imm := 0 |}, pc).

(** The disassembler's line: the resolved name of the instruction's own
    address, then the resolved name of its target. *)
Definition disasm (dec : riscv_decode) (hist : list riscv_decode)
    (pc next_pc pc_offset gp : riscv_ptr) (sym : riscv_ptr -> option string)
    (color : string -> string) : list riscv_decode * string :=
  (dec :: hist,
   color "address" +:+ default "-" (sym (wrap64 (pc - pc_offset))) +:+ " -> "
     +:+ default "-" (sym (branch_target pc pc_offset (dec_imm dec))) +:+ nl).

Definition find_option (opts : list cmdline_option) (arg : string) : option cmdline_option :=
  List.find (fun o => String.eqb (short_name o) arg || String.eqb (long_name o) arg) opts.

Definition is_dash (arg : string) : bool :=
  match arg with
  | String c _ => Ascii.eqb c "-"%char
  | EmptyString => false
  end.

(** Options first, then positional arguments; an unknown option fails. *)
Fixpoint parse_args (opts : list cmdline_option) (args : list string)
    (st : riscv_parse_elf) : (list string * bool) * riscv_parse_elf :=
  match args with
  | [] => (([], true), st)
  | arg :: rest =>
      match find_option opts arg with
      | Some o =>
          let '(ok, st') := option_fn o EmptyString st in
          if ok then parse_args opts rest st' else (([], false), st')
      | None => if is_dash arg then (([], false), st) else ((args, true), st)
      end
  end.

Definition esc : string := String "027"%char "[".

Definition externals (decode : riscv_ptr -> riscv_decode * riscv_ptr) (tty : bool)
  : Externals :=
  {| riscv_decode_instruction := decode;
     riscv_decode_decompress := fun dec => dec;
     riscv_disasm_instruction := disasm;
     elf_load := load;
     elf_print_header_info := fun _ color => color "legend" +:+ "header" +:+ nl;
     elf_print_section_headers := fun _ color => color "legend" +:+ "sections" +:+ nl;
     elf_print_program_headers := fun _ color => color "legend" +:+ "segments" +:+ nl;
     elf_print_symbol_table := fun _ color => color "legend" +:+ "symbols" +:+ nl;
     process_options := fun opts argv st => parse_args opts (tail argv) st;
     print_options := fun opts => String.concat nl (map long_name opts);
     isatty_stdout := tty;
     EM_RISCV := 243;
     SHF_EXECINSTR := 4;
     _COLOR_BEGIN := esc;
     _COLOR_SEP := ";";
     _COLOR_END := "m";
     _COLOR_RESET := esc +:+ "m";
     _COLOR_BOLD := "1";
     _COLOR_UNDERSCORE := "4";
     _COLOR_FG_WHITE := "37";
     _COLOR_FG_MAGENTA := "35";
     _COLOR_FG_CYAN := "36";
     _COLOR_FG_GREEN := "32";
     _COLOR_FG_YELLOW := "33";
     _COLOR_BG_BLACK := "40" |}.

Definition ext4 : Externals := externals decode4 false.
Definition ext4_tty : Externals := externals decode4 true.
Definition ext_stuck : Externals := externals decode_stuck false.

(** The object after [-d a.out]. *)
Definition st_d : riscv_parse_elf :=
  set_elf riscv_elf (set_filename "a.out" (set_disassebly true riscv_parse_elf_init)).

(** The load-address offset of [.text]: [0x1000 - 0x10000] as a pointer. *)
Definition pc_off : Z := region_pc_offset riscv_elf text_shdr.

(** A table in which [0x10008] already has a label. *)
Definition st_one : riscv_parse_elf :=
  set_branch_labels {[ 65544 := "LOC_000001" ]} st_d.

(** The scan of [.text] alone, and the scan of every section. *)
Definition region_scan : option (riscv_parse_elf * list event) :=
  scan_branch_labels_range (ext := ext4) 12 4096 4108 pc_off st_d.

Definition st_region : riscv_parse_elf := (default (st_d, []) region_scan).1.
Definition log_region : list event := (default (st_d, []) region_scan).2.

Definition full_scan : option (riscv_parse_elf * list event) :=
  scan_branch_labels (ext := ext4) 12 st_d.

Definition st_full : riscv_parse_elf := (default (st_d, []) full_scan).1.
Definition log_full : list event := (default (st_d, []) full_scan).2.

(** The object after [-d a.out], before the container is loaded, and the
    log of its run. *)
Definition st_cmd_d : riscv_parse_elf :=
  set_filename "a.out" (set_disassebly true riscv_parse_elf_init).

Definition log_run_d : list event :=
  (default ([], LoadFailure) (run (ext := ext4) 12 st_cmd_d)).1.

(** The object after [-a x86.out]. *)
Definition st_cmd_x86 : riscv_parse_elf :=
  set_filename "x86.out"
    (set_elf_header true (set_section_headers true (set_program_headers true
       (set_symbol_table true (set_disassebly true riscv_parse_elf_init))))).

(** The object after [-c -d a.out] and a scan. *)
Definition st_color : riscv_parse_elf := set_enable_color true st_full.

End Sample.


(** * Properties *)

Section Properties.
Context {ext : Externals}.

(** ** The object outside the label table *)

Lemma set_branch_labels_twice m m' st :
  set_branch_labels m (set_branch_labels m' st) = set_branch_labels m st.
Proof. reflexivity. Qed.

Lemma set_branch_labels_same st : set_branch_labels (branch_labels st) st = st.
Proof. by destruct st. Qed.

Lemma scan_step_frame pc pc_offset bn st bn' st' log :
  scan_step pc pc_offset bn st = (bn', st', log) ->
  st' = set_branch_labels (branch_labels st') st.
Proof.
  unfold scan_step.
  destruct (dec_type (scan_decode pc)); intros [= <- <- <-]; simpl;
    auto using set_branch_labels_same.
Qed.

Lemma scan_loop_frame fuel end_ pc_offset :
  forall pc bn st st' log,
    scan_loop fuel end_ pc_offset pc bn st = Some (st', log) ->
    st' = set_branch_labels (branch_labels st') st.
Proof.
  induction fuel as [|fuel IH]; intros pc bn st st' log; simpl.
  - destruct (pc <? end_); [discriminate|].
    intros [= <- <-]. by rewrite set_branch_labels_same.
  - destruct (pc <? end_).
    + destruct (scan_step pc pc_offset bn st) as [[bn1 st1] log1] eqn:Hstep.
      destruct (scan_loop fuel end_ pc_offset (next_pc_of pc) bn1 st1)
        as [[st2 log2]|] eqn:Hloop; [|discriminate].
      intros [= <- <-].
      apply IH in Hloop. apply scan_step_frame in Hstep.
      rewrite Hloop, Hstep. reflexivity.
    + intros [= <- <-]. by rewrite set_branch_labels_same.
Qed.

(** ** Termination of the two walks *)

Lemma scan_loop_terminates fuel end_ pc_offset :
  forall pc bn st,
    decoder_advances pc end_ ->
    (Z.to_nat (end_ - pc) <= fuel)%nat ->
    is_Some (scan_loop fuel end_ pc_offset pc bn st).
Proof.
  induction fuel as [|fuel IH]; intros pc bn st Hadv Hfuel; simpl.
  - destruct (Z.ltb_spec pc end_); [lia | eauto].
  - destruct (Z.ltb_spec pc end_) as [Hlt|]; [|eauto].
    destruct (scan_step pc pc_offset bn st) as [[bn1 st1] log1].
    assert (Hnext : pc < next_pc_of pc) by (apply Hadv; lia).
    destruct (IH (next_pc_of pc) bn1 st1) as [[st2 log2] ->]; [| lia | eauto].
    intros p Hp. apply Hadv. lia.
Qed.

Lemma print_loop_terminates fuel end_ pc_offset gp :
  forall pc hist st,
    decoder_advances pc end_ ->
    (Z.to_nat (end_ - pc) <= fuel)%nat ->
    is_Some (print_loop fuel end_ pc_offset gp pc hist st).
Proof.
  induction fuel as [|fuel IH]; intros pc hist st Hadv Hfuel; simpl.
  - destruct (Z.ltb_spec pc end_); [lia | eauto].
  - destruct (Z.ltb_spec pc end_) as [Hlt|]; [|eauto].
    assert (Hnext : pc < next_pc_of pc) by (apply Hadv; lia).
    unfold next_pc_of in *.
    destruct (riscv_decode_instruction pc) as [dec next_pc]; simpl in *.
    destruct (riscv_disasm_instruction _ _ _ _ _ _ _ _) as [hist' text].
    destruct (IH next_pc hist' st) as [log ->]; [| lia | eauto].
    intros p Hp. apply Hadv. lia.
Qed.

(** A position where the decoder stays put is never left. *)
Lemma scan_loop_stuck end_ pc_offset pc :
  pc < end_ -> next_pc_of pc = pc ->
  forall fuel bn st, scan_loop fuel end_ pc_offset pc bn st = None.
Proof.
  intros Hlt Hstuck. induction fuel as [|fuel IH]; intros bn st; simpl;
    destruct (Z.ltb_spec pc end_); try lia; [reflexivity|].
  destruct (scan_step pc pc_offset bn st) as [[bn1 st1] log1].
  rewrite Hstuck, IH. reflexivity.
Qed.

Lemma print_loop_stuck end_ pc_offset gp pc :
  pc < end_ -> next_pc_of pc = pc ->
  forall fuel hist st, print_loop fuel end_ pc_offset gp pc hist st = None.
Proof.
  intros Hlt Hstuck. induction fuel as [|fuel IH]; intros hist st; simpl;
    destruct (Z.ltb_spec pc end_); try lia; [reflexivity|].
  unfold next_pc_of in Hstuck.
  destruct (riscv_decode_instruction pc) as [dec next_pc]; simpl in Hstuck; subst next_pc.
  destruct (riscv_disasm_instruction _ _ _ _ _ _ _ _) as [hist' text].
  rewrite IH. reflexivity.
Qed.

Lemma scan_loop_visited_stuck end_ pc_offset start pc :
  visited end_ start pc -> next_pc_of pc = pc ->
  forall fuel bn st, scan_loop fuel end_ pc_offset start bn st = None.
Proof.
  induction 1 as [pc Hlt | start pc Hlt Hvis IH]; intros Hstuck.
  - by apply scan_loop_stuck.
  - intros [|fuel] bn st; simpl; destruct (Z.ltb_spec start end_); try lia;
      [reflexivity|].
    destruct (scan_step start pc_offset bn st) as [[bn1 st1] log1].
    rewrite IH by done. reflexivity.
Qed.

Lemma print_loop_visited_stuck end_ pc_offset gp start pc :
  visited end_ start pc -> next_pc_of pc = pc ->
  forall fuel hist st, print_loop fuel end_ pc_offset gp start hist st = None.
Proof.
  induction 1 as [pc Hlt | start pc Hlt Hvis IH]; intros Hstuck.
  - by apply print_loop_stuck.
  - intros [|fuel] hist st; simpl; destruct (Z.ltb_spec start end_); try lia;
      [reflexivity|].
    unfold next_pc_of in *.
    destruct (riscv_decode_instruction start) as [dec next_pc]; simpl in *.
    destruct (riscv_disasm_instruction _ _ _ _ _ _ _ _) as [hist' text].
    rewrite IH by done. reflexivity.
Qed.

(** ** What one scan of a region stores *)

Lemma scan_step_store pc pc_offset bn st :
  is_branch_type (dec_type (scan_decode pc)) = true ->
  scan_step pc pc_offset bn st =
    (bn + 1,
     set_branch_labels
       (<[branch_target pc pc_offset (dec_imm (scan_decode pc)) := format_branch_label bn]>
          (branch_labels st)) st,
     [EvLabelStore (branch_target pc pc_offset (dec_imm (scan_decode pc)))
        (format_branch_label bn)]).
Proof. unfold scan_step. by destruct (dec_type (scan_decode pc)). Qed.

Lemma scan_step_skip pc pc_offset bn st :
  is_branch_type (dec_type (scan_decode pc)) = false ->
  scan_step pc pc_offset bn st = (bn, st, []).
Proof. unfold scan_step. by destruct (dec_type (scan_decode pc)). Qed.

Lemma scan_step_keys pc pc_offset bn st bn' st' log k :
  scan_step pc pc_offset bn st = (bn', st', log) ->
  is_Some (branch_labels st !! k) \/ (exists name, EvLabelStore k name ∈ log) ->
  is_Some (branch_labels st' !! k).
Proof.
  destruct (is_branch_type (dec_type (scan_decode pc))) eqn:Hb.
  - rewrite scan_step_store by done. intros [= <- <- <-]; simpl.
    intros [Hk | [name Hin]].
    + rewrite lookup_insert. case_decide; eauto.
    + apply list_elem_of_singleton in Hin. injection Hin as -> _.
      rewrite lookup_insert_eq. eauto.
  - rewrite scan_step_skip by done. intros [= <- <- <-].
    intros [Hk | [name Hin]]; [done|]. by apply elem_of_nil in Hin.
Qed.

Lemma scan_loop_keys fuel end_ pc_offset k :
  forall pc bn st st' log,
    scan_loop fuel end_ pc_offset pc bn st = Some (st', log) ->
    is_Some (branch_labels st !! k) \/ (exists name, EvLabelStore k name ∈ log) ->
    is_Some (branch_labels st' !! k).
Proof.
  induction fuel as [|fuel IH]; intros pc bn st st' log; simpl.
  - destruct (pc <? end_); [discriminate|]. intros [= <- <-].
    intros [Hk | [name Hin]]; [done|]. by apply elem_of_nil in Hin.
  - destruct (pc <? end_).
    + destruct (scan_step pc pc_offset bn st) as [[bn1 st1] log1] eqn:Hstep.
      destruct (scan_loop fuel end_ pc_offset (next_pc_of pc) bn1 st1)
        as [[st2 log2]|] eqn:Hloop; [|discriminate].
      intros [= <- <-] Hk.
      eapply IH; [exact Hloop|].
      destruct Hk as [Hk | [name Hin]].
      * left. eapply scan_step_keys; eauto.
      * apply elem_of_app in Hin as [Hin | Hin]; [|eauto].
        left. eapply scan_step_keys; eauto.
    + intros [= <- <-].
      intros [Hk | [name Hin]]; [done|]. by apply elem_of_nil in Hin.
Qed.

Lemma scan_loop_stores fuel end_ pc_offset a :
  forall pc bn st st' log,
    scan_loop fuel end_ pc_offset pc bn st = Some (st', log) ->
    (exists name, EvLabelStore a name ∈ log) <->
    (exists p, visited end_ pc p
               /\ is_branch_type (dec_type (scan_decode p)) = true
               /\ a = branch_target p pc_offset (dec_imm (scan_decode p))).
Proof.
  induction fuel as [|fuel IH]; intros pc bn st st' log; simpl.
  - destruct (Z.ltb_spec pc end_); [discriminate|]. intros [= <- <-]. split.
    + intros [name Hin]. by apply elem_of_nil in Hin.
    + intros (p & Hvis & _). inversion Hvis; subst; lia.
  - destruct (Z.ltb_spec pc end_) as [Hlt|Hge].
    + destruct (scan_step pc pc_offset bn st) as [[bn1 st1] log1] eqn:Hstep.
      destruct (scan_loop fuel end_ pc_offset (next_pc_of pc) bn1 st1)
        as [[st2 log2]|] eqn:Hloop; [|discriminate].
      intros [= <- <-]. specialize (IH _ _ _ _ _ Hloop). split.
      * intros [name Hin]. apply elem_of_app in Hin as [Hin | Hin].
        -- exists pc. split; [by constructor|].
           destruct (is_branch_type (dec_type (scan_decode pc))) eqn:Hb.
           ++ rewrite scan_step_store in Hstep by done.
              injection Hstep as <- <- <-.
              apply list_elem_of_singleton in Hin. by injection Hin as -> _.
           ++ rewrite scan_step_skip in Hstep by done.
              injection Hstep as <- <- <-. by apply elem_of_nil in Hin.
        -- destruct (proj1 IH) as (p & Hvis & Hb & Ha); [eauto|].
           exists p. split; [by apply visited_later|done].
      * intros (p & Hvis & Hb & Ha). inversion Hvis; subst.
        -- rewrite scan_step_store in Hstep by done.
           injection Hstep as <- <- <-.
           eexists. apply elem_of_app. left. apply list_elem_of_singleton. reflexivity.
        -- destruct (proj2 IH) as [name Hin]; [eauto|].
           exists name. apply elem_of_app. by right.
    + intros [= <- <-]. split.
      * intros [name Hin]. by apply elem_of_nil in Hin.
      * intros (p & Hvis & _). inversion Hvis; subst; lia.
Qed.

(** ** The events of each phase *)

Lemma scan_step_log pc pc_offset bn st bn' st' log :
  scan_step pc pc_offset bn st = (bn', st', log) -> Forall label_write log.
Proof.
  unfold scan_step.
  destruct (dec_type (scan_decode pc)); intros [= <- <- <-];
    repeat constructor.
Qed.

Lemma scan_loop_log fuel end_ pc_offset :
  forall pc bn st st' log,
    scan_loop fuel end_ pc_offset pc bn st = Some (st', log) ->
    Forall label_write log.
Proof.
  induction fuel as [|fuel IH]; intros pc bn st st' log; simpl.
  - destruct (pc <? end_); [discriminate|]. intros [= <- <-]. constructor.
  - destruct (pc <? end_); [|intros [= <- <-]; constructor].
    destruct (scan_step pc pc_offset bn st) as [[bn1 st1] log1] eqn:Hstep.
    destruct (scan_loop fuel end_ pc_offset (next_pc_of pc) bn1 st1)
      as [[st2 log2]|] eqn:Hloop; [|discriminate].
    intros [= <- <-]. apply Forall_app. split.
    + eapply scan_step_log; eauto.
    + eapply IH; eauto.
Qed.

Lemma scan_sections_log fuel e l :
  forall st st' log,
    scan_sections fuel e l st = Some (st', log) -> Forall label_write log.
Proof.
  induction l as [|shdr rest IH]; intros st st' log; simpl.
  - intros [= <- <-]. constructor.
  - destruct (is_exec shdr); [|apply IH].
    destruct (scan_branch_labels_range _ _ _ _ _) as [[st1 log1]|] eqn:Hrange;
      [|discriminate].
    destruct (scan_sections fuel e rest st1) as [[st2 log2]|] eqn:Hrest;
      [|discriminate].
    intros [= <- <-]. apply Forall_app. split.
    + eapply scan_loop_log; exact Hrange.
    + eapply IH; eauto.
Qed.

Lemma scan_sections_frame fuel e l :
  forall st st' log,
    scan_sections fuel e l st = Some (st', log) ->
    st' = set_branch_labels (branch_labels st') st.
Proof.
  induction l as [|shdr rest IH]; intros st st' log; simpl.
  - intros [= <- <-]. by rewrite set_branch_labels_same.
  - destruct (is_exec shdr); [|apply IH].
    destruct (scan_branch_labels_range _ _ _ _ _) as [[st1 log1]|] eqn:Hrange;
      [|discriminate].
    destruct (scan_sections fuel e rest st1) as [[st2 log2]|] eqn:Hrest;
      [|discriminate].
    intros [= <- <-]. apply IH in Hrest. apply scan_loop_frame in Hrange.
    rewrite Hrest, Hrange. reflexivity.
Qed.

Lemma scan_branch_labels_frame fuel st st' log :
  scan_branch_labels fuel st = Some (st', log) ->
  st' = set_branch_labels (branch_labels st') st /\ Forall label_write log.
Proof.
  unfold scan_branch_labels.
  destruct (scan_sections _ _ _ _) as [[st1 log1]|] eqn:Hscan; [|discriminate].
  intros [= <- <-]. split.
  - apply scan_sections_frame in Hscan. rewrite Hscan. reflexivity.
  - constructor; [exact I|]. eapply scan_sections_log; eauto.
Qed.

Lemma print_loop_log fuel end_ pc_offset gp st :
  forall pc hist log,
    print_loop fuel end_ pc_offset gp pc hist st = Some log ->
    Forall (printer_event (branch_labels st)) log.
Proof.
  induction fuel as [|fuel IH]; intros pc hist log; simpl.
  - destruct (pc <? end_); [discriminate|]. intros [= <-]. constructor.
  - destruct (pc <? end_); [|intros [= <-]; constructor].
    destruct (riscv_decode_instruction pc) as [dec next_pc].
    destruct (riscv_disasm_instruction _ _ _ _ _ _ _ _) as [hist' text].
    destruct (print_loop fuel end_ pc_offset gp next_pc hist' st) as [log'|] eqn:Hloop;
      [|discriminate].
    intros [= <-]. constructor; [reflexivity|]. eapply IH; eauto.
Qed.

Lemma print_sections_log fuel gp st l :
  forall i log,
    print_sections fuel gp i l st = Some log ->
    Forall (printer_event (branch_labels st)) log.
Proof.
  induction l as [|shdr rest IH]; intros i log; simpl.
  - intros [= <-]. constructor.
  - destruct (is_exec shdr); [|apply IH].
    destruct (print_disassembly_range _ _ _ _ _ _) as [log1|] eqn:Hrange;
      [|discriminate].
    destruct (print_sections fuel gp (S i) rest st) as [log2|] eqn:Hrest;
      [|discriminate].
    intros [= <-]. constructor; [exact I|]. apply Forall_app. split.
    + eapply print_loop_log; exact Hrange.
    + eapply IH; eauto.
Qed.

Lemma print_if_quiet b st heading f text :
  Forall no_disassembly (print_if b st heading f text).
Proof. destruct b; repeat constructor. Qed.

Lemma run_container_sections_quiet st :
  Forall no_disassembly (run_container_sections st).
Proof.
  unfold run_container_sections.
  repeat (apply Forall_app; split); apply print_if_quiet.
Qed.

(** With a decoder that advances in every executable section, and fuel for
    the longest of them, the scan of all sections, the printing of all
    sections and the whole run terminate. *)
Lemma scan_sections_terminates fuel e l :
  Forall (section_walk_ends fuel e) l ->
  forall st, is_Some (scan_sections fuel e l st).
Proof.
  induction 1 as [|shdr rest Hshdr _ IH]; intros st; simpl; [eauto|].
  destruct (is_exec shdr) eqn:Hexec; [|apply IH].
  destruct (Hshdr Hexec) as [Hadv Hfuel].
  destruct (scan_loop_terminates fuel (region_end e shdr) (region_pc_offset e shdr)
              (region_start e shdr) 1 st Hadv Hfuel) as [[st1 log1] Hscan].
  unfold scan_branch_labels_range.
  change (scan_loop fuel (region_end e shdr) (region_pc_offset e shdr)
            (region_start e shdr) 1 st = Some (st1, log1)) in Hscan.
  unfold region_end, region_pc_offset, region_start in Hscan. rewrite Hscan.
  destruct (IH st1) as [[st2 log2] ->]. eauto.
Qed.

Lemma print_sections_terminates fuel gp st l :
  Forall (section_walk_ends fuel (elf st)) l ->
  forall i, is_Some (print_sections fuel gp i l st).
Proof.
  induction 1 as [|shdr rest Hshdr _ IH]; intros i; simpl; [eauto|].
  destruct (is_exec shdr) eqn:Hexec; [|apply IH].
  destruct (Hshdr Hexec) as [Hadv Hfuel].
  destruct (print_loop_terminates fuel (region_end (elf st) shdr)
              (region_pc_offset (elf st) shdr) gp
              (region_start (elf st) shdr) [] st Hadv Hfuel) as [log1 Hprint].
  unfold print_disassembly_range.
  unfold region_end, region_pc_offset, region_start in Hprint. rewrite Hprint.
  destruct (IH (S i)) as [log2 ->]. eauto.
Qed.

Lemma run_terminates fuel st :
  (forall e, elf_load (filename st) = Some e ->
             Forall (section_walk_ends fuel e) (shdrs e)) ->
  is_Some (run fuel st).
Proof.
  intros Hwalk. unfold run.
  destruct (elf_load (filename st)) as [e|] eqn:Hload; [|eauto].
  specialize (Hwalk e eq_refl). simpl.
  destruct (disassebly st && (e_machine (ehdr e) =? EM_RISCV)); [|eauto].
  unfold run_disassembly, scan_branch_labels. simpl.
  destruct (scan_sections_terminates fuel e (shdrs e) Hwalk
              (set_branch_labels ∅ (set_elf e st))) as [[st1 log1] Hscan].
  rewrite Hscan.
  assert (Helf : elf st1 = e).
  { apply scan_sections_frame in Hscan. by rewrite Hscan. }
  unfold print_disassembly.
  destruct (print_sections_terminates fuel
              match elf_sym_by_name (elf st1) "_gp" with
              | Some s => wrap64 (st_value s)
              | None => 0
              end st1 (shdrs (elf st1))) with (i := 0%nat) as [log2 ->];
    [by rewrite Helf | eauto].
Qed.

Lemma EvPrintf_inj (a b : string) : EvPrintf a = EvPrintf b -> a = b.
Proof. congruence. Qed.

Lemma elem_of_print_if b st heading f text e :
  e ∈ print_if b st heading f text ->
  e = EvPrintf (print_heading st heading) \/ e = EvExtern f text.
Proof.
  destruct b; simpl; [|by intros ?%elem_of_nil].
  rewrite elem_of_cons, list_elem_of_singleton. tauto.
Qed.

Lemma elem_of_print_if_extern b st heading f text :
  b = true -> EvExtern f text ∈ print_if b st heading f text.
Proof. intros ->. simpl. rewrite !elem_of_cons. auto. Qed.

(** ** Strings *)

Lemma append_inv_head (s a b : string) : s +:+ a = s +:+ b -> a = b.
Proof. induction s as [|c s IH]; simpl; [done|]. intros [= H]. auto. Qed.

Lemma print_heading_inj st h h' :
  print_heading st h = print_heading st h' ->
  c_str h +:+ " ]"
    +:+ repeat_char "-" (Z.to_nat (wrap64 (116 - Z.of_nat (String.length h))))
    +:+ colorize st "reset" +:+ nl +:+ nl
  = c_str h' +:+ " ]"
    +:+ repeat_char "-" (Z.to_nat (wrap64 (116 - Z.of_nat (String.length h'))))
    +:+ colorize st "reset" +:+ nl +:+ nl.
Proof.
  unfold print_heading. intros H.
  apply append_inv_head in H. apply append_inv_head in H.
  apply append_inv_head in H. exact H.
Qed.

Lemma print_heading_not_nl st h : print_heading st h <> nl.
Proof.
  unfold print_heading, nl. simpl. intros [= H].
  destruct (colorize st "header"); discriminate.
Qed.

Lemma find_first {A} (f : A -> bool) (l : list A) (x : A) :
  List.find f l = Some x ->
  exists l1 l2, l = l1 ++ x :: l2 /\ f x = true /\ Forall (fun y => f y = false) l1.
Proof.
  induction l as [|y l IH]; simpl; [discriminate|].
  destruct (f y) eqn:Hy.
  - intros [= ->]. exists [], l. auto.
  - intros Hfind. destruct (IH Hfind) as (l1 & l2 & -> & Hx & Hl1).
    exists (y :: l1), l2. auto.
Qed.

Lemma find_is_Some {A} (f : A -> bool) (l : list A) (x : A) :
  x ∈ l -> f x = true -> is_Some (List.find f l).
Proof.
  induction 1 as [x l | x y l Hin IH]; simpl; intros Hx.
  - rewrite Hx. eauto.
  - destruct (f y); eauto.
Qed.

Lemma find_is_None {A} (f : A -> bool) (l : list A) :
  (forall x, x ∈ l -> f x = false) -> List.find f l = None.
Proof.
  induction l as [|y l IH]; simpl; intros Hall; [done|].
  rewrite (Hall y) by constructor. apply IH. intros x Hx. apply Hall. by constructor.
Qed.

(** ** The claims *)

(** C1 (amended).  For an instruction classified as a conditional branch or
    an unconditional jump, one turn of the scan loop binds the target
    address to the name formatted from the per-region counter and
    increments the counter, whether or not the address was a key before:
    an existing entry is replaced, every other entry is left as it was. *)
Theorem scan_step_branch_always_stores pc pc_offset bn st :
  is_branch_type (dec_type (scan_decode pc)) = true ->
  let target := branch_target pc pc_offset (dec_imm (scan_decode pc)) in
  (scan_step pc pc_offset bn st).1.1 = bn + 1
  /\ branch_labels (scan_step pc pc_offset bn st).1.2 !! target
       = Some (format_branch_label bn)
  /\ (forall k, k <> target ->
        branch_labels (scan_step pc pc_offset bn st).1.2 !! k = branch_labels st !! k)
  /\ (scan_step pc pc_offset bn st).2 = [EvLabelStore target (format_branch_label bn)].
Proof.
  intros Hb target. rewrite scan_step_store by done. simpl.
  repeat split.
  - apply lookup_insert_eq.
  - intros k Hk. by apply lookup_insert_ne.
Qed.

(** C2 (amended).  The walks have no check for a decoder that does not
    advance.  When the decoder advances at every position of the region,
    the scan walk and the print walk both terminate, within [end - start]
    turns; when some position the walk reaches is one where the decoder
    returns the position it was given, neither walk terminates and nothing
    is reported. *)
Theorem region_walks_terminate_iff_decoder_advances start end_ pc_offset gp st :
  (decoder_advances start end_ ->
     forall fuel, (Z.to_nat (end_ - start) <= fuel)%nat ->
       is_Some (scan_branch_labels_range fuel start end_ pc_offset st)
       /\ is_Some (print_disassembly_range fuel start end_ pc_offset gp st))
  /\ (forall pc, visited end_ start pc -> next_pc_of pc = pc ->
        forall fuel,
          scan_branch_labels_range fuel start end_ pc_offset st = None
          /\ print_disassembly_range fuel start end_ pc_offset gp st = None).
Proof.
  split.
  - intros Hadv fuel Hfuel. split.
    + by apply scan_loop_terminates.
    + by apply print_loop_terminates.
  - intros pc Hvis Hstuck fuel. split.
    + eapply scan_loop_visited_stuck; eauto.
    + eapply print_loop_visited_stuck; eauto.
Qed.

(** C3.  In a scan of a region, every decoded instruction classified as a
    conditional branch or an unconditional jump has the address
    [(pc - pc_offset) + imm], in 64-bit arithmetic, stored in the label
    table, and every address the scan stores is of that form. *)
Theorem scan_stores_branch_targets fuel start end_ pc_offset st st' log :
  scan_branch_labels_range fuel start end_ pc_offset st = Some (st', log) ->
  (forall pc,
     visited end_ start pc ->
     is_branch_type (dec_type (scan_decode pc)) = true ->
     let target := wrap64 ((pc - pc_offset) + dec_imm (scan_decode pc)) in
     (exists name, EvLabelStore target name ∈ log)
     /\ is_Some (branch_labels st' !! target)
     /\ (0 <= (pc - pc_offset) + dec_imm (scan_decode pc) < 2 ^ 64 ->
         target = (pc - pc_offset) + dec_imm (scan_decode pc)))
  /\ (forall a name,
        EvLabelStore a name ∈ log ->
        exists pc,
          visited end_ start pc
          /\ is_branch_type (dec_type (scan_decode pc)) = true
          /\ a = wrap64 ((pc - pc_offset) + dec_imm (scan_decode pc))).
Proof.
  unfold scan_branch_labels_range. intros Hscan. split.
  - intros pc Hvis Hb.
    set (target := wrap64 (pc - pc_offset + dec_imm (scan_decode pc))).
    assert (Hstore : exists name, EvLabelStore target name ∈ log).
    { apply (scan_loop_stores _ _ _ target _ _ _ _ _ Hscan). by exists pc. }
    repeat split; [done | | ].
    + eapply scan_loop_keys; eauto.
    + intros Hrange. unfold target, wrap64. by apply Z.mod_small.
  - intros a name Hin.
    apply (scan_loop_stores _ _ _ a _ _ _ _ _ Hscan). eauto.
Qed.

(** C4.  The resolver returns the name of the first symbol, in symbol-table
    order, whose address is the one asked for, whenever there is such a
    symbol (also when the address is a key of the label table); without
    such a symbol it returns the label table's entry for the address, and
    no name when the table has none. *)
Theorem symlookup_precedence st addr :
  ((exists s, s ∈ symbols (elf st) /\ st_value s = addr) ->
     exists s l1 l2,
       symbols (elf st) = l1 ++ s :: l2
       /\ st_value s = addr
       /\ Forall (fun x => st_value x <> addr) l1
       /\ (symlookup st addr).1 = Some (st_name_str s))
  /\ ((forall s, s ∈ symbols (elf st) -> st_value s <> addr) ->
        (symlookup st addr).1 = branch_labels st !! addr).
Proof.
  unfold symlookup, elf_sym_by_addr. split.
  - intros (s & Hin & Hs).
    destruct (find_is_Some (fun x => st_value x =? addr) _ s Hin) as [s' Hfind];
      [lia|].
    rewrite Hfind. simpl.
    destruct (find_first _ _ _ Hfind) as (l1 & l2 & Hsplit & Hs' & Hl1).
    exists s', l1, l2. repeat split; [done | lia | ].
    eapply Forall_impl; [exact Hl1|]. simpl. intros x Hx. lia.
  - intros Hnone. rewrite find_is_None.
    + simpl. by destruct (branch_labels st !! addr).
    + intros x Hx. specialize (Hnone x Hx). lia.
Qed.

Lemma has_esc_append (a b : string) : has_esc (a +:+ b) = has_esc a || has_esc b.
Proof.
  induction a as [|c a IH]; [done|].
  change (has_esc (String c (a +:+ b)) = has_esc (String c a) || has_esc b).
  simpl. rewrite IH. by rewrite orb_assoc.
Qed.

Lemma has_esc_repeat_char c n :
  Ascii.eqb c "027"%char = false -> has_esc (repeat_char c n) = false.
Proof. intros Hc. induction n as [|n IH]; simpl; [done|]. by rewrite Hc, IH. Qed.

Lemma digit_char_not_esc d : Ascii.eqb (digit_char (d mod 10)) "027"%char = false.
Proof.
  pose proof (Z.mod_pos_bound d 10 ltac:(lia)) as Hd.
  generalize dependent (d mod 10). intros k Hk.
  destruct (Z.eq_dec k 0) as [-> | ?]; [reflexivity|].
  destruct (Z.eq_dec k 1) as [-> | ?]; [reflexivity|].
  destruct (Z.eq_dec k 2) as [-> | ?]; [reflexivity|].
  destruct (Z.eq_dec k 3) as [-> | ?]; [reflexivity|].
  destruct (Z.eq_dec k 4) as [-> | ?]; [reflexivity|].
  destruct (Z.eq_dec k 5) as [-> | ?]; [reflexivity|].
  destruct (Z.eq_dec k 6) as [-> | ?]; [reflexivity|].
  destruct (Z.eq_dec k 7) as [-> | ?]; [reflexivity|].
  destruct (Z.eq_dec k 8) as [-> | ?]; [reflexivity|].
  destruct (Z.eq_dec k 9) as [-> | ?]; [reflexivity|].
  lia.
Qed.

Lemma has_esc_String c s : has_esc (String c s) = Ascii.eqb c "027"%char || has_esc s.
Proof. reflexivity. Qed.

Lemma has_esc_decimal_digits fuel :
  forall n acc, has_esc (decimal_digits fuel n acc) = has_esc acc.
Proof.
  induction fuel as [|fuel IH]; intros n acc; [reflexivity|].
  change (decimal_digits (S fuel) n acc)
    with (if n / 10 =? 0 then String (digit_char (n mod 10)) acc
          else decimal_digits fuel (n / 10) (String (digit_char (n mod 10)) acc)).
  destruct (n / 10 =? 0); [|rewrite IH];
    rewrite has_esc_String, digit_char_not_esc; reflexivity.
Qed.

Lemma has_esc_fmt_2lu n : has_esc (fmt_2lu n) = false.
Proof.
  unfold fmt_2lu, fmt_lu.
  rewrite has_esc_append, has_esc_repeat_char, has_esc_decimal_digits by done.
  reflexivity.
Qed.

(** C7 (amended).  The colorizer returns a non-empty string only when the
    colour flag is set and standard output is a terminal; with the flag
    off, or with standard output not a terminal, it returns the empty
    string for every tag, and the heading and the section title that this
    file prints are then the plain text: they hold an escape byte only
    where the heading or the section name holds one. *)
Theorem colorize_closed_gate st :
  (forall type,
     colorize st type <> EmptyString ->
     enable_color st = true /\ isatty_stdout = true)
  /\ (enable_color st = false \/ isatty_stdout = false ->
      (forall type, colorize st type = EmptyString)
      /\ (forall heading,
            print_heading st heading =
              nl +:+ "---[ " +:+ c_str heading +:+ " ]"
                +:+ repeat_char "-"
                      (Z.to_nat (wrap64 (116 - Z.of_nat (String.length heading))))
                +:+ nl +:+ nl)
      /\ (forall i,
            section_title st i =
              "Section[" +:+ fmt_2lu (Z.of_nat i) +:+ "] "
                +:+ fmt_left111 (elf_shdr_name (elf st) i) +:+ nl)
      /\ (forall heading,
            has_esc (print_heading st heading) = has_esc (c_str heading))
      /\ (forall i,
            has_esc (section_title st i) = has_esc (elf_shdr_name (elf st) i))).
Proof.
  split.
  - intros type. unfold colorize.
    destruct (enable_color st), isatty_stdout; simpl; intros H; try done.
  - intros Hoff.
    assert (Hc : forall type, colorize st type = EmptyString).
    { intros type. unfold colorize.
      destruct Hoff as [-> | ->]; simpl; [done|].
      by rewrite orb_true_r. }
    split; [exact Hc|]. split; [|split; [|split]].
    + intros heading. unfold print_heading. by rewrite !Hc.
    + intros i. unfold section_title. by rewrite !Hc.
    + intros heading. unfold print_heading. rewrite !Hc.
      rewrite !has_esc_append, has_esc_repeat_char by done.
      simpl. by rewrite !orb_false_r.
    + intros i. unfold section_title, fmt_left111. rewrite !Hc.
      rewrite !has_esc_append, has_esc_fmt_2lu, has_esc_repeat_char by done.
      simpl. by rewrite !orb_false_r.
Qed.

(** C9.  A lookup through the resolver leaves the object, and with it the
    label table, as it was: for an address that is neither a symbol nor a
    key of the table it returns no name, and the address is still not a
    key afterwards. *)
Theorem symlookup_leaves_table st addr :
  (symlookup st addr).2 = st
  /\ ((forall s, s ∈ symbols (elf st) -> st_value s <> addr) ->
      branch_labels st !! addr = None ->
      (symlookup st addr).1 = None
      /\ branch_labels (symlookup st addr).2 !! addr = None
      /\ dom (branch_labels (symlookup st addr).2) = dom (branch_labels st)).
Proof.
  assert (Hframe : (symlookup st addr).2 = st).
  { unfold symlookup, map_find.
    destruct (elf_sym_by_addr (elf st) addr); [done|].
    simpl. destruct (branch_labels st !! addr); simpl; apply set_branch_labels_same. }
  split; [exact Hframe|].
  intros Hnone Hkey. rewrite Hframe. repeat split; [|done].
  unfold symlookup, elf_sym_by_addr. rewrite find_is_None.
  - unfold map_find. by rewrite Hkey.
  - intros x Hx. specialize (Hnone x Hx). lia.
Qed.

Lemma run_container_sections_no_disassembly_heading st :
  EvPrintf (print_heading st "Disassembly") ∉ run_container_sections st.
Proof.
  unfold run_container_sections. rewrite !elem_of_app.
  intros H.
  repeat match goal with
  | H : _ \/ _ |- _ => destruct H as [H | H]
  | H : _ ∈ print_if _ _ _ _ _ |- _ => apply elem_of_print_if in H
  | H : EvPrintf _ = EvExtern _ _ |- _ => discriminate H
  | H : EvPrintf _ = EvPrintf _ |- _ =>
      apply EvPrintf_inj, print_heading_inj in H;
      cbn [String.append c_str Ascii.eqb Bool.eqb] in H; discriminate H
  end.
Qed.

(** The targets of every executable section are keys after the scan of the
    section list. *)
Lemma scan_sections_keys fuel e l k :
  forall st st' log,
    scan_sections fuel e l st = Some (st', log) ->
    is_Some (branch_labels st !! k)
    \/ (exists shdr pc,
          shdr ∈ l /\ is_exec shdr = true
          /\ visited (region_end e shdr) (region_start e shdr) pc
          /\ is_branch_type (dec_type (scan_decode pc)) = true
          /\ k = branch_target pc (region_pc_offset e shdr) (dec_imm (scan_decode pc))) ->
    is_Some (branch_labels st' !! k).
Proof.
  induction l as [|shdr rest IH]; intros st st' log; simpl.
  - intros [= <- <-] [Hk | (sh & pc & Hin & _)]; [done|]. by apply elem_of_nil in Hin.
  - destruct (is_exec shdr) eqn:Hexec.
    + destruct (scan_branch_labels_range _ _ _ _ _) as [[st1 log1]|] eqn:Hrange;
        [|discriminate].
      destruct (scan_sections fuel e rest st1) as [[st2 log2]|] eqn:Hrest;
        [|discriminate].
      intros [= <- <-] Hk. eapply IH; [exact Hrest|].
      destruct Hk as [Hk | (sh & pc & Hin & Hex & Hvis & Hb & ->)].
      * left. eapply scan_loop_keys; eauto.
      * apply elem_of_cons in Hin as [-> | Hin].
        -- left. eapply scan_loop_keys; [exact Hrange|]. right.
           eapply scan_loop_stores; [exact Hrange|]. by exists pc.
        -- right. exists sh, pc. done.
    + intros Hscan Hk. eapply IH; [exact Hscan|].
      destruct Hk as [Hk | (sh & pc & Hin & Hex & Hrest)]; [by left|].
      apply elem_of_cons in Hin as [-> | Hin]; [congruence|].
      right. exists sh, pc. done.
Qed.

(** C5.  In a run that disassembles, the log is: what comes before the
    disassembly (no table access), then the writes of the one scan over all
    executable sections, then the printer's events, then the final newline.
    Every disassembler call of the printer has its resolver bound to the
    table that this complete scan left, and in that table every branch or
    jump target of every executable section is a key. *)
Theorem run_scans_everything_before_printing fuel st e log c :
  elf_load (filename st) = Some e ->
  disassebly st = true ->
  e_machine (ehdr e) = EM_RISCV ->
  run fuel st = Some (log, c) ->
  exists st' pre scan_log print_log,
    scan_branch_labels fuel (set_elf e st) = Some (st', scan_log)
    /\ log = pre ++ scan_log ++ print_log ++ [EvPrintf nl]
    /\ Forall no_disassembly pre
    /\ Forall label_write scan_log
    /\ Forall (printer_event (branch_labels st')) print_log
    /\ (forall shdr pc,
          shdr ∈ shdrs e -> is_exec shdr = true ->
          visited (region_end e shdr) (region_start e shdr) pc ->
          is_branch_type (dec_type (scan_decode pc)) = true ->
          is_Some (branch_labels st'
                     !! branch_target pc (region_pc_offset e shdr)
                          (dec_imm (scan_decode pc)))).
Proof.
  intros Hload Hd Hm. unfold run. rewrite Hload. simpl.
  rewrite Hd, Hm, Z.eqb_refl. simpl. unfold run_disassembly.
  destruct (scan_branch_labels fuel (set_elf e st)) as [[st1 scan_log]|] eqn:Hscan;
    [|discriminate].
  destruct (print_disassembly fuel st1) as [print_log|] eqn:Hprint; [|discriminate].
  intros [= <- <-].
  exists st1,
    (EvLoad (filename st)
       :: (run_container_sections (set_elf e st)
             ++ [EvPrintf (print_heading (set_elf e st) "Disassembly")])),
    scan_log, print_log.
  split; [reflexivity|]. split.
  { simpl. f_equal. rewrite <- !app_assoc. reflexivity. }
  split.
  { constructor; [exact I|]. apply Forall_app. split.
    - apply run_container_sections_quiet.
    - repeat constructor. }
  destruct (scan_branch_labels_frame _ _ _ _ Hscan) as [Hframe Hwrites].
  split; [exact Hwrites|]. split.
  { eapply print_sections_log. exact Hprint. }
  intros shdr pc Hin Hexec Hvis Hb.
  unfold scan_branch_labels in Hscan. simpl in Hscan.
  destruct (scan_sections fuel e (shdrs e) _) as [[st2 log2]|] eqn:Hsec;
    [|discriminate].
  injection Hscan as <- <-.
  eapply scan_sections_keys; [exact Hsec|]. right. exists shdr, pc. done.
Qed.

(** C6.  When the loaded container's machine is not [EM_RISCV], the run
    completes for any fuel, its log has no write to the label table, no
    disassembler call and no "Disassembly" heading, each of the four other
    sections that was requested is printed, and the run is the same as with
    the disassembly flag off. *)
Theorem run_skips_disassembly_of_other_machines fuel st e :
  elf_load (filename st) = Some e ->
  e_machine (ehdr e) <> EM_RISCV ->
  exists log,
    run fuel st = Some (log, Completed)
    /\ Forall no_disassembly log
    /\ (EvPrintf (print_heading (set_elf e st) "Disassembly") ∉ log)
    /\ (elf_header st = true ->
          EvExtern elf_print_header_info_fn
            (elf_print_header_info e (colorize (set_elf e st))) ∈ log)
    /\ (section_headers st = true ->
          EvExtern elf_print_section_headers_fn
            (elf_print_section_headers e (colorize (set_elf e st))) ∈ log)
    /\ (program_headers st = true ->
          EvExtern elf_print_program_headers_fn
            (elf_print_program_headers e (colorize (set_elf e st))) ∈ log)
    /\ (symbol_table st = true ->
          EvExtern elf_print_symbol_table_fn
            (elf_print_symbol_table e (colorize (set_elf e st))) ∈ log)
    /\ run fuel st = run fuel (set_disassebly false st).
Proof.
  intros Hload Hm. unfold run. simpl. rewrite Hload. simpl.
  replace (e_machine (ehdr e) =? EM_RISCV) with false by (symmetry; lia).
  rewrite andb_false_r.
  eexists. split; [reflexivity|].
  split.
  { constructor; [exact I|]. apply Forall_app. split.
    - apply run_container_sections_quiet.
    - repeat constructor. }
  split.
  { rewrite elem_of_cons, elem_of_app, list_elem_of_singleton.
    intros [H | [H | H]]; [discriminate | | ].
    - by apply run_container_sections_no_disassembly_heading in H.
    - by apply EvPrintf_inj, print_heading_not_nl in H. }
  unfold run_container_sections. simpl.
  repeat split; intros Hflag; rewrite elem_of_cons, !elem_of_app; right; left.
  - left. by apply elem_of_print_if_extern.
  - right. left. by apply elem_of_print_if_extern.
  - right. right. left. by apply elem_of_print_if_extern.
  - right. right. right. by apply elem_of_print_if_extern.
Qed.

(** C8.  Running the label scanner again on the object that a scan left
    produces the same object, so the same label table (keys and names),
    and the same sequence of writes. *)
Theorem scan_branch_labels_idempotent fuel st st1 log :
  scan_branch_labels fuel st = Some (st1, log) ->
  scan_branch_labels fuel st1 = Some (st1, log).
Proof.
  intros Hscan.
  destruct (scan_branch_labels_frame _ _ _ _ Hscan) as [Hframe _].
  rewrite <- Hscan. rewrite Hframe at 1.
  unfold scan_branch_labels. simpl. reflexivity.
Qed.

(** C10.  When option parsing fails, or the number of remaining arguments
    is not one, or no output section was requested, [main] prints the usage
    line and the option list and leaves through [exit(9)]; before that it
    prints at most the message about the number of arguments, and it never
    loads the container. *)
Theorem main_usage_exit_before_load fuel argv result st1 :
  process_options options argv riscv_parse_elf_init = (result, st1) ->
  result.2 = false \/ length result.1 <> 1%nat \/ no_output_requested st1 = true ->
  exists log,
    main fuel argv =
      Some (log ++ [EvPrintf ("usage: " +:+ argv0 argv +:+ " [<options>] <elf_file>" +:+ nl);
                    EvExtern print_options_fn (print_options options);
                    EvExit 9],
            Exited 9)
    /\ (log = []
        \/ log = [EvPrintf (argv0 argv +:+ ": wrong number of arguments" +:+ nl)])
    /\ (forall file, EvLoad file ∉ log).
Proof.
  intros Hopts Hcase. unfold main, parse_commandline. rewrite Hopts.
  destruct result as [args ok]; simpl in *.
  destruct ok; simpl.
  - destruct (Nat.eqb_spec (length args) 1) as [Hlen | Hlen]; simpl.
    + destruct Hcase as [? | [? | Hnone]]; [done | done |].
      rewrite Hnone, orb_true_r. simpl.
      exists []. split; [reflexivity|]. split; [by left|].
      intros file Hin. by apply elem_of_nil in Hin.
    + exists [EvPrintf (argv0 argv +:+ ": wrong number of arguments" +:+ nl)].
      split; [reflexivity|]. split; [by right|].
      intros file Hin. apply list_elem_of_singleton in Hin. discriminate.
  - exists []. split; [reflexivity|]. split; [by left|].
    intros file Hin. by apply elem_of_nil in Hin.
Qed.

End Properties.

(** * The program on the sample container *)

Import Sample.

Example format_branch_label_sample :
  format_branch_label 1 = "LOC_000001" /\ format_branch_label 1234567 = "LOC_1234567".
Proof. split; reflexivity. Qed.

Example region_scan_sample :
  region_scan = Some (st_region, log_region)
  /\ map_to_list (branch_labels st_region) = [(65540, "LOC_000003"); (65544, "LOC_000002")]
  /\ log_region = [EvLabelStore 65544 "LOC_000001"; EvLabelStore 65544 "LOC_000002";
                   EvLabelStore 65540 "LOC_000003"].
Proof. vm_compute. repeat split. Qed.

Example symlookup_sample :
  (symlookup st_full 65536).1 = Some "main"
  /\ (symlookup st_full 65544).1 = Some "loop"
  /\ branch_labels st_full !! 65544 = Some "LOC_000002"
  /\ (symlookup st_full 65540).1 = Some "LOC_000003"
  /\ (symlookup st_full 1).1 = None.
Proof. vm_compute. repeat split. Qed.

Example map_subscript_inserts :
  (map_subscript (branch_labels st_full) 1).2 !! 1 = Some EmptyString
  /\ (map_find (branch_labels st_full) 1).2 !! 1 = None.
Proof. vm_compute. split; reflexivity. Qed.

Example main_disassembles_sample :
  exists log, main (ext := ext4) 12 ["prog"; "-d"; "a.out"] = Some (log, Returned 0).
Proof. eexists. vm_compute. reflexivity. Qed.

Lemma visited_sample_4100 : visited (ext := ext4) 4108 4096 4100.
Proof. apply visited_later; [lia|]. apply (visited_first (ext := ext4) 4108 4100). lia. Qed.

Lemma decoder_advances_sample : decoder_advances (ext := ext4) 4096 4108.
Proof. intros pc Hpc. unfold next_pc_of. simpl. lia. Qed.

(** C1: the second instruction of the sample targets [0x10008], which the
    first one has already labelled [LOC_000001]; the scanner replaces the
    name by [LOC_000002] and moves the counter from 2 to 3. *)
Lemma scan_step_replaces_existing_label :
  branch_labels st_one !! 65544 = Some "LOC_000001"
  /\ is_branch_type (dec_type (scan_decode (ext := ext4) 4100)) = true
  /\ branch_target 4100 pc_off (dec_imm (scan_decode (ext := ext4) 4100)) = 65544
  /\ (scan_step (ext := ext4) 4100 pc_off 2 st_one).1.1 = 3
  /\ branch_labels (scan_step (ext := ext4) 4100 pc_off 2 st_one).1.2 !! 65544
       = Some "LOC_000002".
Proof. vm_compute. repeat split. Qed.

(** The amended C1 at the second instruction of the sample. *)
Lemma scan_step_branch_always_stores_witness :
  is_branch_type (dec_type (scan_decode (ext := ext4) 4100)) = true
  /\ (scan_step (ext := ext4) 4100 pc_off 2 st_one).1.1 = 2 + 1
  /\ branch_labels (scan_step (ext := ext4) 4100 pc_off 2 st_one).1.2
       !! branch_target 4100 pc_off (dec_imm (scan_decode (ext := ext4) 4100))
     = Some (format_branch_label 2).
Proof.
  split; [reflexivity|].
  pose proof (scan_step_branch_always_stores (ext := ext4) 4100 pc_off 2 st_one eq_refl)
    as (Hnum & Hname & _).
  split; [exact Hnum | exact Hname].
Defined.

(** C2: with a decoder that returns the position it was given, neither walk
    of the sample region ever ends, whatever the fuel: there is no result
    and no report. *)
Lemma stuck_decoder_walks_never_end :
  next_pc_of (ext := ext_stuck) 4096 = 4096
  /\ (forall fuel,
        scan_branch_labels_range (ext := ext_stuck) fuel 4096 4108 pc_off st_d = None)
  /\ (forall fuel,
        print_disassembly_range (ext := ext_stuck) fuel 4096 4108 pc_off 70000 st_d
          = None).
Proof.
  split; [reflexivity|]. split; intros fuel.
  - apply (scan_loop_stuck (ext := ext_stuck)); [lia | reflexivity].
  - apply (print_loop_stuck (ext := ext_stuck)); [lia | reflexivity].
Qed.

(** The amended C2 on the sample region: the four-byte decoder ends both
    walks, the stuck decoder does not. *)
Lemma region_walks_terminate_witness :
  decoder_advances (ext := ext4) 4096 4108
  /\ is_Some (scan_branch_labels_range (ext := ext4) 12 4096 4108 pc_off st_d)
  /\ is_Some (print_disassembly_range (ext := ext4) 12 4096 4108 pc_off 70000 st_d)
  /\ scan_branch_labels_range (ext := ext_stuck) 12 4096 4108 pc_off st_d = None.
Proof.
  split; [exact decoder_advances_sample|].
  pose proof (region_walks_terminate_iff_decoder_advances (ext := ext4)
                4096 4108 pc_off 70000 st_d) as [Hterm _].
  pose proof (region_walks_terminate_iff_decoder_advances (ext := ext_stuck)
                4096 4108 pc_off 70000 st_d) as [_ Hstuck].
  destruct (Hterm decoder_advances_sample 12%nat) as [Hscan Hprint]; [simpl; lia|].
  split; [exact Hscan|]. split; [exact Hprint|].
  apply (Hstuck 4096).
  - apply (visited_first (ext := ext_stuck)). lia.
  - reflexivity.
Defined.

(** C3 on the sample region: the branch at [0x1004] stores
    [(0x1004 - pc_off) + 4 = 0x10008]. *)
Lemma scan_stores_branch_targets_witness :
  scan_branch_labels_range (ext := ext4) 12 4096 4108 pc_off st_d
    = Some (st_region, log_region)
  /\ (exists name, EvLabelStore 65544 name ∈ log_region)
  /\ is_Some (branch_labels st_region !! 65544).
Proof.
  assert (Hscan : scan_branch_labels_range (ext := ext4) 12 4096 4108 pc_off st_d
                  = Some (st_region, log_region)) by (vm_compute; reflexivity).
  split; [exact Hscan|].
  pose proof (scan_stores_branch_targets (ext := ext4) _ _ _ _ _ _ _ Hscan) as [Hfwd _].
  destruct (Hfwd 4100 visited_sample_4100 eq_refl) as (Hstore & Hkey & _).
  split; [exact Hstore | exact Hkey].
Defined.

(** C4 on the scanned sample: [0x10008] is a symbol and a label key,
    [0x10004] a label key only. *)
Lemma symlookup_precedence_witness :
  (exists s l1 l2,
     symbols (elf st_full) = l1 ++ s :: l2
     /\ st_value s = 65544
     /\ Forall (fun x => st_value x <> 65544) l1
     /\ (symlookup st_full 65544).1 = Some (st_name_str s))
  /\ (symlookup st_full 65540).1 = branch_labels st_full !! 65540.
Proof.
  pose proof (symlookup_precedence st_full 65544) as [Hsym _].
  pose proof (symlookup_precedence st_full 65540) as [_ Hlabel].
  split.
  - apply Hsym. exists {| st_name_str := "loop_alias"; st_value := 65544 |}.
    split; [|reflexivity].
    change (symbols (elf st_full)) with sample_symbols.
    unfold sample_symbols. rewrite !elem_of_cons. auto.
  - apply Hlabel. intros s Hs.
    change (symbols (elf st_full)) with sample_symbols in Hs.
    unfold sample_symbols in Hs. rewrite !elem_of_cons, elem_of_nil in Hs.
    destruct Hs as [-> | [-> | [-> | [-> | []]]]]; simpl; lia.
Defined.

(** C5 on the run of [-d a.out]. *)
Lemma run_scans_everything_before_printing_witness :
  run (ext := ext4) 12 st_cmd_d = Some (log_run_d, Completed)
  /\ exists st' pre scan_log print_log,
       scan_branch_labels (ext := ext4) 12 (set_elf riscv_elf st_cmd_d)
         = Some (st', scan_log)
       /\ log_run_d = pre ++ scan_log ++ print_log ++ [EvPrintf nl]
       /\ Forall no_disassembly pre
       /\ Forall label_write scan_log
       /\ Forall (printer_event (branch_labels st')) print_log.
Proof.
  assert (Hrun : run (ext := ext4) 12 st_cmd_d = Some (log_run_d, Completed))
    by (vm_compute; reflexivity).
  split; [exact Hrun|].
  destruct (run_scans_everything_before_printing (ext := ext4) 12 st_cmd_d riscv_elf
              log_run_d Completed eq_refl eq_refl eq_refl Hrun)
    as (st' & pre & scan_log & print_log & H1 & H2 & H3 & H4 & H5 & _).
  exists st', pre, scan_log, print_log. auto.
Defined.

(** C6 on the run of [-a x86.out]. *)
Lemma run_skips_disassembly_witness :
  elf_load (Externals := ext4_tty) (filename st_cmd_x86) = Some x86_elf
  /\ exists log,
       run (ext := ext4_tty) 0 st_cmd_x86 = Some (log, Completed)
       /\ Forall no_disassembly log
       /\ EvExtern elf_print_symbol_table_fn
            (elf_print_symbol_table (Externals := ext4_tty) x86_elf
               (colorize (ext := ext4_tty) (set_elf x86_elf st_cmd_x86))) ∈ log.
Proof.
  split; [reflexivity|].
  assert (Hm : e_machine (ehdr x86_elf) <> EM_RISCV (Externals := ext4_tty))
    by (simpl; lia).
  destruct (run_skips_disassembly_of_other_machines (ext := ext4_tty) 0 st_cmd_x86
              x86_elf eq_refl Hm)
    as (log & Hrun & Hquiet & _ & _ & _ & _ & Hsym & _).
  exists log. split; [exact Hrun|]. split; [exact Hquiet|]. apply Hsym. reflexivity.
Defined.

(** The amended C7 with the colour flag set: on a terminal and away from
    one. *)
Lemma colorize_closed_gate_witness :
  (enable_color st_color = true /\ isatty_stdout (Externals := ext4_tty) = true)
  /\ (forall type, colorize (ext := ext4) st_color type = EmptyString)
  /\ (forall i, has_esc (section_title (ext := ext4) st_color i)
                = has_esc (elf_shdr_name (elf st_color) i)).
Proof.
  split.
  - apply (proj1 (colorize_closed_gate (ext := ext4_tty) st_color) "opcode"). discriminate.
  - destruct (proj2 (colorize_closed_gate (ext := ext4) st_color))
      as (Hempty & _ & _ & _ & Htitle); [right; reflexivity|].
    split; [exact Hempty | exact Htitle].
Defined.

(** C8 on the sample container. *)
Lemma scan_branch_labels_idempotent_witness :
  scan_branch_labels (ext := ext4) 12 st_d = Some (st_full, log_full)
  /\ scan_branch_labels (ext := ext4) 12 st_full = Some (st_full, log_full).
Proof.
  assert (Hscan : scan_branch_labels (ext := ext4) 12 st_d = Some (st_full, log_full))
    by (vm_compute; reflexivity).
  split; [exact Hscan|].
  exact (scan_branch_labels_idempotent (ext := ext4) 12 st_d st_full log_full Hscan).
Defined.

(** C9 at address 1, which is neither a symbol nor a label key. *)
Lemma symlookup_leaves_table_witness :
  (symlookup st_full 1).2 = st_full
  /\ (symlookup st_full 1).1 = None
  /\ branch_labels (symlookup st_full 1).2 !! 1 = None.
Proof.
  pose proof (symlookup_leaves_table st_full 1) as [Hframe Hmiss].
  split; [exact Hframe|].
  destruct Hmiss as (Hnone & Hkey & _).
  - intros s Hs. change (symbols (elf st_full)) with sample_symbols in Hs.
    unfold sample_symbols in Hs. rewrite !elem_of_cons, elem_of_nil in Hs.
    destruct Hs as [-> | [-> | [-> | [-> | []]]]]; simpl; lia.
  - vm_compute. reflexivity.
  - split; [exact Hnone | exact Hkey].
Defined.

(** C10 on [prog -c a.out]: no output section is requested. *)
Lemma main_usage_exit_before_load_witness :
  exists log,
    main (ext := ext4) 0 ["prog"; "-c"; "a.out"] =
      Some (log ++ [EvPrintf ("usage: " +:+ "prog" +:+ " [<options>] <elf_file>" +:+ nl);
                    EvExtern print_options_fn (print_options (Externals := ext4) options);
                    EvExit 9],
            Exited 9)
    /\ (forall file, EvLoad file ∉ log).
Proof.
  destruct (main_usage_exit_before_load (ext := ext4) 0 ["prog"; "-c"; "a.out"]
              (["a.out"], true) (set_enable_color true riscv_parse_elf_init) eq_refl)
    as (log & Hmain & _ & Hload).
  - right. right. reflexivity.
  - exists log. split; [exact Hmain | exact Hload].
Defined.

(** * More of the sample container *)

Module MoreSamples.
Import Sample.


(** A container with a data section and an executable section of size
    zero. *)
Definition empty_text_shdr : Elf64_Shdr :=
  {| sh_name_str := ".init"; sh_flags := 6; sh_addr := 65536; sh_offset := 0;
     sh_size := 0 |}.

Definition st_nothing : riscv_parse_elf :=
  set_elf {| ehdr := {| e_machine := 243 |}; shdrs := [data_shdr; empty_text_shdr];
             symbols := []; buf := 4096 |}
          st_one.

(** A container whose executable section has a name that begins with an
    escape sequence, and the rest of rv8 with a loader that gives it. *)
Definition esc_text_shdr : Elf64_Shdr :=
  {| sh_name_str := String "027"%char "[31m.text"; sh_flags := 6; sh_addr := 65536;
     sh_offset := 0; sh_size := 12 |}.

Definition esc_elf : elf_file :=
  {| ehdr := {| e_machine := 243 |}; shdrs := [esc_text_shdr];
     symbols := sample_symbols; buf := 4096 |}.

Definition ext_esc : Externals :=
  {| riscv_decode_instruction := decode4;
     riscv_decode_decompress := fun dec => dec;
     riscv_disasm_instruction := disasm;
     elf_load := fun _ => Some esc_elf;
     elf_print_header_info := fun _ color => color "legend" +:+ "header" +:+ nl;
     elf_print_section_headers := fun _ color => color "legend" +:+ "sections" +:+ nl;
     elf_print_program_headers := fun _ color => color "legend" +:+ "segments" +:+ nl;
     elf_print_symbol_table := fun _ color => color "legend" +:+ "symbols" +:+ nl;
     process_options := fun opts argv st => parse_args opts (tail argv) st;
     print_options := fun opts => String.concat nl (map long_name opts);
     isatty_stdout := false;
     EM_RISCV := 243;
     SHF_EXECINSTR := 4;
     _COLOR_BEGIN := esc;
     _COLOR_SEP := ";";
     _COLOR_END := "m";
     _COLOR_RESET := esc +:+ "m";
     _COLOR_BOLD := "1";
     _COLOR_UNDERSCORE := "4";
     _COLOR_FG_WHITE := "37";
     _COLOR_FG_MAGENTA := "35";
     _COLOR_FG_CYAN := "36";
     _COLOR_FG_GREEN := "32";
     _COLOR_FG_YELLOW := "33";
     _COLOR_BG_BLACK := "40" |}.

(** The object of the run of [-d esc.out]. *)
Definition st_esc : riscv_parse_elf :=
  set_elf esc_elf (set_filename "esc.out" (set_disassebly true riscv_parse_elf_init)).

(** A heading with a NUL in the middle. *)
Definition heading_with_nul : string :=
  String "a" (String "b" (String "000"%char (String "c" (String "d" EmptyString)))).

(** The callbacks of [-c] and [-a]. *)
Definition opt_color : cmdline_option :=
  {| short_name := "-c"; long_name := "--color"; has_arg := false;
     help_text := "Enable Color";
     option_fn := fun _ st => (true, set_enable_color true st) |}.

Definition opt_all : cmdline_option :=
  {| short_name := "-a"; long_name := "--print-all"; has_arg := false;
     help_text := "Print All";
     option_fn := fun _ st =>
       (true,
        set_elf_header true (set_section_headers true (set_program_headers true
          (set_symbol_table true (set_disassebly true st))))) |}.

End MoreSamples.

(** * Further properties of the scanner, the printer and the front end *)

Section MoreProperties.
Context {ext : Externals}.

(** ** Strings and numerals *)

Lemma length_append (a b : string) :
  String.length (a +:+ b) = (String.length a + String.length b)%nat.
Proof. induction a as [|c a IH]; simpl; [done|]. by rewrite IH. Qed.

Lemma length_repeat_char c n : String.length (repeat_char c n) = n.
Proof. induction n as [|n IH]; simpl; [done|]. by rewrite IH. Qed.

Lemma substring_all (s : string) (n : nat) :
  (String.length s <= n)%nat -> String.substring 0 n s = s.
Proof.
  revert n. induction s as [|c s IH]; intros [|n]; simpl; intros Hlen; try done.
  - lia.
  - rewrite IH by lia. reflexivity.
Qed.

Lemma decimal_digits_acc fuel :
  forall n acc, decimal_digits fuel n acc = decimal_digits fuel n EmptyString +:+ acc.
Proof.
  induction fuel as [|fuel IH]; intros n acc; simpl; [done|].
  destruct (n / 10 =? 0); [done|].
  rewrite (IH _ (String _ acc)), (IH _ (String _ EmptyString)).
  generalize (decimal_digits fuel (n / 10) EmptyString). intros d.
  induction d as [|c d IHd]; [done|].
  change (String c (d +:+ String (digit_char (n mod 10)) acc)
          = String c ((d +:+ String (digit_char (n mod 10)) EmptyString) +:+ acc)).
  f_equal. exact IHd.
Qed.

Lemma decimal_digits_length fuel :
  forall n acc,
    (String.length (decimal_digits fuel n acc) <= fuel + String.length acc)%nat
    /\ (String.length acc <= String.length (decimal_digits fuel n acc))%nat.
Proof.
  induction fuel as [|fuel IH]; intros n acc; simpl; [lia|].
  destruct (n / 10 =? 0); simpl; [lia|].
  destruct (IH (n / 10) (String (digit_char (n mod 10)) acc)) as [Hle Hge].
  simpl in *. lia.
Qed.

Lemma decimal_digits_nonempty fuel n acc :
  (String.length acc < String.length (decimal_digits (S fuel) n acc))%nat.
Proof.
  simpl. destruct (n / 10 =? 0); simpl; [lia|].
  destruct (decimal_digits_length fuel (n / 10) (String (digit_char (n mod 10)) acc))
    as [_ Hge].
  simpl in Hge. lia.
Qed.

Lemma fmt_lu_length n : (1 <= String.length (fmt_lu n) <= 20)%nat.
Proof.
  unfold fmt_lu. split.
  - pose proof (decimal_digits_nonempty 19 (wrap64 n) EmptyString) as H.
    simpl String.length in H at 1. lia.
  - destruct (decimal_digits_length 20 (wrap64 n) EmptyString) as [Hle _].
    simpl String.length in Hle at 2. lia.
Qed.

Lemma fmt_06lu_length n : (6 <= String.length (fmt_06lu n) <= 20)%nat.
Proof.
  unfold fmt_06lu. rewrite length_append, length_repeat_char.
  pose proof (fmt_lu_length n). lia.
Qed.

Lemma format_branch_label_full n : format_branch_label n = "LOC_" +:+ fmt_06lu n.
Proof.
  unfold format_branch_label, snprintf. apply substring_all.
  rewrite length_append. pose proof (fmt_06lu_length n). simpl. lia.
Qed.

Lemma digit_value_char d : 0 <= d < 10 -> digit_value (digit_char d) = d.
Proof.
  intros Hd. unfold digit_value, digit_char.
  rewrite nat_ascii_embedding by lia. lia.
Qed.

Lemma decimal_value_from_app (a b : string) :
  forall acc, decimal_value_from (a +:+ b) acc
              = decimal_value_from b (decimal_value_from a acc).
Proof. induction a as [|c a IH]; intros acc; simpl; [done|]. apply IH. Qed.

Lemma decimal_value_digits fuel :
  forall n, 0 <= n < 10 ^ Z.of_nat fuel ->
            decimal_value (decimal_digits fuel n EmptyString) = n.
Proof.
  unfold decimal_value.
  induction fuel as [|fuel IH]; intros n Hn.
  - simpl in *. lia.
  - rewrite Nat2Z.inj_succ, Z.pow_succ_r in Hn by lia. simpl.
    assert (Hmod : 0 <= n mod 10 < 10) by (apply Z.mod_pos_bound; lia).
    destruct (Z.eqb_spec (n / 10) 0) as [Hdiv | Hdiv].
    + simpl. rewrite digit_value_char by done.
      pose proof (Z.div_mod n 10). lia.
    + rewrite decimal_digits_acc, decimal_value_from_app. simpl.
      rewrite digit_value_char by done.
      rewrite IH by (split; [apply Z.div_pos; lia | apply Z.div_lt_upper_bound; lia]).
      pose proof (Z.div_mod n 10). lia.
Qed.

Lemma decimal_value_zeros k s :
  decimal_value (repeat_char "0" k +:+ s) = decimal_value s.
Proof. unfold decimal_value. induction k as [|k IH]; simpl; [done|]. exact IH. Qed.

Lemma decimal_value_fmt_06lu n : decimal_value (fmt_06lu n) = wrap64 n.
Proof.
  unfold fmt_06lu, fmt_lu. rewrite decimal_value_zeros.
  apply decimal_value_digits.
  pose proof (Z.mod_pos_bound n (2 ^ 64)). unfold wrap64. simpl. lia.
Qed.

Lemma format_branch_label_inj a b :
  0 <= a < 2 ^ 64 -> 0 <= b < 2 ^ 64 ->
  format_branch_label a = format_branch_label b -> a = b.
Proof.
  intros Ha Hb. rewrite !format_branch_label_full. intros H.
  apply append_inv_head in H.
  apply (f_equal decimal_value) in H. rewrite !decimal_value_fmt_06lu in H.
  unfold wrap64 in H. by rewrite !Z.mod_small in H.
Qed.

(** ** The writes of a scan, in order *)

Lemma replay_app l1 l2 m : replay (l1 ++ l2) m = replay l2 (replay l1 m).
Proof. unfold replay. apply foldl_app. Qed.

Lemma scan_step_replay pc pc_offset bn st bn' st' log :
  scan_step pc pc_offset bn st = (bn', st', log) ->
  branch_labels st' = replay log (branch_labels st).
Proof.
  unfold scan_step.
  destruct (dec_type (scan_decode pc)); intros [= <- <- <-]; reflexivity.
Qed.

Lemma scan_loop_replay fuel end_ pc_offset :
  forall pc bn st st' log,
    scan_loop fuel end_ pc_offset pc bn st = Some (st', log) ->
    branch_labels st' = replay log (branch_labels st).
Proof.
  induction fuel as [|fuel IH]; intros pc bn st st' log; simpl.
  - destruct (pc <? end_); [discriminate|]. by intros [= <- <-].
  - destruct (pc <? end_); [|by intros [= <- <-]].
    destruct (scan_step pc pc_offset bn st) as [[bn1 st1] log1] eqn:Hstep.
    destruct (scan_loop fuel end_ pc_offset (next_pc_of pc) bn1 st1)
      as [[st2 log2]|] eqn:Hloop; [|discriminate].
    intros [= <- <-]. rewrite replay_app.
    rewrite (IH _ _ _ _ _ Hloop), (scan_step_replay _ _ _ _ _ _ _ Hstep). reflexivity.
Qed.

Lemma scan_sections_replay fuel e l :
  forall st st' log,
    scan_sections fuel e l st = Some (st', log) ->
    branch_labels st' = replay log (branch_labels st).
Proof.
  induction l as [|shdr rest IH]; intros st st' log; simpl.
  - by intros [= <- <-].
  - destruct (is_exec shdr); [|apply IH].
    destruct (scan_branch_labels_range _ _ _ _ _) as [[st1 log1]|] eqn:Hrange;
      [|discriminate].
    destruct (scan_sections fuel e rest st1) as [[st2 log2]|] eqn:Hrest;
      [|discriminate].
    intros [= <- <-]. rewrite replay_app.
    rewrite (IH _ _ _ Hrest), (scan_loop_replay _ _ _ _ _ _ _ _ Hrange). reflexivity.
Qed.

(** Replaying stores: a store that no later store overrides is what the
    table holds, and a key the stores do not mention is as before. *)
Lemma replay_stores_last l k name :
  Forall label_write l ->
  (forall name', EvLabelStore k name' ∉ l) -> EvLabelsClear ∉ l ->
  forall m, m !! k = Some name -> replay l m !! k = Some name.
Proof.
  induction l as [|e l IH]; intros Hw Hk Hc m Hm; [done|].
  apply Forall_cons in Hw as [He Hw]. unfold replay. simpl.
  apply IH; [done | | |].
  - intros name' Hin. apply (Hk name'). by right.
  - intros Hin. apply Hc. by right.
  - destruct e; simpl in *; try done.
    + exfalso. apply Hc. by left.
    + rewrite lookup_insert_ne; [done|]. intros <-. apply (Hk name0). by left.
Qed.

Lemma replay_stores_key l k :
  Forall label_write l ->
  forall m, is_Some (replay l m !! k) ->
            is_Some (m !! k) \/ exists name, EvLabelStore k name ∈ l.
Proof.
  induction l as [|e l IH]; intros Hw m Hk; [by left|].
  apply Forall_cons in Hw as [He Hw]. unfold replay in Hk. simpl in Hk.
  destruct (IH Hw _ Hk) as [Hm | [name Hin]].
  - destruct e; simpl in *; try done.
    + rewrite lookup_empty in Hm. by destruct Hm.
    + destruct (decide (addr = k)) as [-> | Hne].
      * right. exists name. by left.
      * rewrite lookup_insert_ne in Hm by done. by left.
  - right. exists name. by right.
Qed.

Lemma scan_loop_no_clear fuel end_ pc_offset :
  forall pc bn st st' log,
    scan_loop fuel end_ pc_offset pc bn st = Some (st', log) ->
    EvLabelsClear ∉ log.
Proof.
  induction fuel as [|fuel IH]; intros pc bn st st' log; simpl.
  - destruct (pc <? end_); [discriminate|]. intros [= <- <-]. apply not_elem_of_nil.
  - destruct (pc <? end_); [|intros [= <- <-]; apply not_elem_of_nil].
    destruct (scan_step pc pc_offset bn st) as [[bn1 st1] log1] eqn:Hstep.
    destruct (scan_loop fuel end_ pc_offset (next_pc_of pc) bn1 st1)
      as [[st2 log2]|] eqn:Hloop; [|discriminate].
    intros [= <- <-]. rewrite elem_of_app. intros [Hin | Hin].
    + destruct (is_branch_type (dec_type (scan_decode pc))) eqn:Hb.
      * rewrite scan_step_store in Hstep by done. injection Hstep as _ _ <-.
        apply list_elem_of_singleton in Hin. discriminate.
      * rewrite scan_step_skip in Hstep by done. injection Hstep as _ _ <-.
        by apply elem_of_nil in Hin.
    + by apply (IH _ _ _ _ _ Hloop).
Qed.

(** The [i]-th write of a walk that starts with the counter at [bn]. *)
Lemma scan_loop_numbering fuel end_ pc_offset :
  forall pc bn st st' log,
    scan_loop fuel end_ pc_offset pc bn st = Some (st', log) ->
    forall (i : nat) e,
      log !! i = Some e ->
      exists addr, e = EvLabelStore addr (format_branch_label (bn + Z.of_nat i)).
Proof.
  induction fuel as [|fuel IH]; intros pc bn st st' log; simpl.
  - destruct (pc <? end_); [discriminate|]. intros [= <- <-] i e Hi. done.
  - destruct (pc <? end_); [|intros [= <- <-] i e Hi; done].
    destruct (scan_step pc pc_offset bn st) as [[bn1 st1] log1] eqn:Hstep.
    destruct (scan_loop fuel end_ pc_offset (next_pc_of pc) bn1 st1)
      as [[st2 log2]|] eqn:Hloop; [|discriminate].
    intros [= <- <-] i e Hi. specialize (IH _ _ _ _ _ Hloop).
    destruct (is_branch_type (dec_type (scan_decode pc))) eqn:Hb.
    + rewrite scan_step_store in Hstep by done. injection Hstep as <- <- <-.
      destruct i as [|i]; simpl in Hi.
      * injection Hi as <-. rewrite Z.add_0_r. eauto.
      * destruct (IH i e Hi) as [addr ->]. exists addr. do 2 f_equal. lia.
    + rewrite scan_step_skip in Hstep by done. injection Hstep as <- <- <-.
      simpl in Hi. by apply IH.
Qed.

(** X1.  In every region the counter starts at 1: the writes of a region
    scan are stores, and the [i]-th of them (from 0) carries the name
    formatted from [i + 1], whatever earlier regions stored. *)
Theorem region_labels_numbered_from_one fuel start end_ pc_offset st st' log (i : nat) e :
  scan_branch_labels_range fuel start end_ pc_offset st = Some (st', log) ->
  log !! i = Some e ->
  exists addr, e = EvLabelStore addr (format_branch_label (1 + Z.of_nat i)).
Proof. intros Hscan. by apply (scan_loop_numbering _ _ _ _ _ _ _ _ Hscan). Qed.

(** X2.  The 32-byte buffer never cuts a label: a label is [LOC_] followed
    by the counter in decimal, zero-padded to six digits, between 10 and 24
    characters in all. *)
Theorem branch_label_never_truncated n :
  format_branch_label n = "LOC_" +:+ fmt_06lu n
  /\ (10 <= String.length (format_branch_label n) <= 24)%nat.
Proof.
  split; [apply format_branch_label_full|].
  rewrite format_branch_label_full, length_append.
  pose proof (fmt_06lu_length n). simpl. lia.
Qed.

(** X3.  The counter can be read back from a label: the digits after [LOC_]
    are the counter, so labels of different counters differ. *)
Theorem branch_label_determines_counter a b :
  0 <= a < 2 ^ 64 -> 0 <= b < 2 ^ 64 ->
  decimal_value (fmt_06lu a) = a
  /\ (format_branch_label a = format_branch_label b -> a = b).
Proof.
  intros Ha Hb. split.
  - rewrite decimal_value_fmt_06lu. unfold wrap64. by apply Z.mod_small.
  - by apply format_branch_label_inj.
Qed.

(** X4.  Within one region no two stores write the same name (the region
    has fewer than 2^64 - 1 branches). *)
Theorem region_label_names_distinct fuel start end_ pc_offset st st' log
    (i j : nat) a b name_i name_j :
  scan_branch_labels_range fuel start end_ pc_offset st = Some (st', log) ->
  Z.of_nat (length log) < 2 ^ 64 ->
  log !! i = Some (EvLabelStore a name_i) ->
  log !! j = Some (EvLabelStore b name_j) ->
  i <> j ->
  name_i <> name_j.
Proof.
  intros Hscan Hlen Hi Hj Hij Hname.
  destruct (scan_loop_numbering _ _ _ _ _ _ _ _ Hscan i _ Hi) as [a' Ha].
  destruct (scan_loop_numbering _ _ _ _ _ _ _ _ Hscan j _ Hj) as [b' Hb].
  injection Ha as _ Ha. injection Hb as _ Hb.
  apply lookup_lt_Some in Hi, Hj.
  assert (1 + Z.of_nat i = 1 + Z.of_nat j); [|lia].
  apply format_branch_label_inj; [lia | lia | congruence].
Qed.

(** X5.  The last branch that targets an address names it: after a region
    scan the table holds, for an address, the name of the last store to
    that address. *)
Theorem region_last_store_wins fuel start end_ pc_offset st st' log l1 l2 k name :
  scan_branch_labels_range fuel start end_ pc_offset st = Some (st', log) ->
  log = l1 ++ EvLabelStore k name :: l2 ->
  (forall name', EvLabelStore k name' ∉ l2) ->
  branch_labels st' !! k = Some name.
Proof.
  intros Hscan Hlog Hlast.
  rewrite (scan_loop_replay _ _ _ _ _ _ _ _ Hscan).
  pose proof (scan_loop_log _ _ _ _ _ _ _ _ Hscan) as Hw.
  pose proof (scan_loop_no_clear _ _ _ _ _ _ _ _ Hscan) as Hc.
  subst log. rewrite replay_app.
  apply Forall_app in Hw as [_ Hw]. apply Forall_cons in Hw as [_ Hw].
  change (replay (EvLabelStore k name :: l2) (replay l1 (branch_labels st)))
    with (replay l2 (<[k := name]> (replay l1 (branch_labels st)))).
  apply replay_stores_last; [done | done | | apply lookup_insert_eq].
  intros Hin. apply Hc. rewrite elem_of_app. right. by right.
Qed.

(** ** The table after the scan of all sections *)

Lemma scan_sections_stores fuel e l k :
  forall st st' log name,
    scan_sections fuel e l st = Some (st', log) ->
    EvLabelStore k name ∈ log ->
    exists shdr pc,
      shdr ∈ l /\ is_exec shdr = true
      /\ visited (region_end e shdr) (region_start e shdr) pc
      /\ is_branch_type (dec_type (scan_decode pc)) = true
      /\ k = branch_target pc (region_pc_offset e shdr) (dec_imm (scan_decode pc)).
Proof.
  induction l as [|shdr rest IH]; intros st st' log name; simpl.
  - intros [= <- <-] Hin. by apply elem_of_nil in Hin.
  - destruct (is_exec shdr) eqn:Hexec.
    + destruct (scan_branch_labels_range _ _ _ _ _) as [[st1 log1]|] eqn:Hrange;
        [|discriminate].
      destruct (scan_sections fuel e rest st1) as [[st2 log2]|] eqn:Hrest;
        [|discriminate].
      intros [= <- <-] Hin. apply elem_of_app in Hin as [Hin | Hin].
      * destruct (proj1 (scan_loop_stores _ _ _ k _ _ _ _ _ Hrange))
          as (pc & Hvis & Hb & Hk); [eauto|].
        exists shdr, pc. repeat split; try done. by left.
      * destruct (IH _ _ _ _ Hrest Hin) as (sh & pc & Hsh & Hrest').
        exists sh, pc. split; [by right | done].
    + intros Hscan Hin.
      destruct (IH _ _ _ _ Hscan Hin) as (sh & pc & Hsh & Hrest').
      exists sh, pc. split; [by right | done].
Qed.

Lemma scan_sections_names fuel e l :
  forall st st' log k name,
    scan_sections fuel e l st = Some (st', log) ->
    EvLabelStore k name ∈ log ->
    exists n, 1 <= n /\ name = format_branch_label n.
Proof.
  induction l as [|shdr rest IH]; intros st st' log k name; simpl.
  - intros [= <- <-] Hin. by apply elem_of_nil in Hin.
  - destruct (is_exec shdr); [|apply IH].
    destruct (scan_branch_labels_range _ _ _ _ _) as [[st1 log1]|] eqn:Hrange;
      [|discriminate].
    destruct (scan_sections fuel e rest st1) as [[st2 log2]|] eqn:Hrest;
      [|discriminate].
    intros [= <- <-] Hin. apply elem_of_app in Hin as [Hin | Hin].
    + apply list_elem_of_lookup in Hin as [i Hi].
      destruct (scan_loop_numbering _ _ _ _ _ _ _ _ Hrange i _ Hi) as [addr Heq].
      injection Heq as _ ->. exists (1 + Z.of_nat i). split; [lia | done].
    + eapply IH; eauto.
Qed.

Lemma replay_stores_value l k name :
  Forall label_write l ->
  forall m, replay l m !! k = Some name ->
            m !! k = Some name \/ EvLabelStore k name ∈ l.
Proof.
  induction l as [|e l IH]; intros Hw m Hk; [by left|].
  apply Forall_cons in Hw as [He Hw]. unfold replay in Hk. simpl in Hk.
  destruct (IH Hw _ Hk) as [Hm | Hin]; [|right; by right].
  destruct e; simpl in *; try done.
  destruct (decide (addr = k)) as [-> | Hne].
  - rewrite lookup_insert_eq in Hm. injection Hm as ->. right. by left.
  - rewrite lookup_insert_ne in Hm by done. by left.
Qed.

Lemma scan_branch_labels_sections fuel st st' log :
  scan_branch_labels fuel st = Some (st', log) ->
  exists log',
    log = EvLabelsClear :: log'
    /\ scan_sections fuel (elf st) (shdrs (elf st)) (set_branch_labels ∅ st)
       = Some (st', log')
    /\ branch_labels st' = replay log' ∅.
Proof.
  unfold scan_branch_labels.
  destruct (scan_sections _ _ _ _) as [[st1 log1]|] eqn:Hscan; [|discriminate].
  intros [= <- <-]. exists log1. repeat split.
  apply (scan_sections_replay _ _ _ _ _ _ Hscan).
Qed.

(** X6.  After the scan of all sections the keys of the label table are
    exactly the targets of the branches and jumps that the walks over the
    executable sections decode: nothing of an earlier table is left and
    nothing else is added. *)
Theorem scanned_keys_are_the_branch_targets fuel st st' log k :
  scan_branch_labels fuel st = Some (st', log) ->
  is_Some (branch_labels st' !! k) <->
  exists shdr pc,
    shdr ∈ shdrs (elf st) /\ is_exec shdr = true
    /\ visited (region_end (elf st) shdr) (region_start (elf st) shdr) pc
    /\ is_branch_type (dec_type (scan_decode pc)) = true
    /\ k = branch_target pc (region_pc_offset (elf st) shdr) (dec_imm (scan_decode pc)).
Proof.
  intros Hscan.
  destruct (scan_branch_labels_sections _ _ _ _ Hscan) as (log' & -> & Hsec & Hreplay).
  split.
  - intros Hk. rewrite Hreplay in Hk.
    apply replay_stores_key in Hk as [Hk | [name Hin]].
    + rewrite lookup_empty in Hk. by destruct Hk.
    + eapply scan_sections_stores; eauto.
    + eapply scan_sections_log; eauto.
  - intros Htarget. eapply scan_sections_keys; [exact Hsec|]. by right.
Qed.

(** X7.  After the scan of all sections every name in the label table is a
    label formatted from a counter value of at least 1. *)
Theorem scanned_names_are_labels fuel st st' log k name :
  scan_branch_labels fuel st = Some (st', log) ->
  branch_labels st' !! k = Some name ->
  exists n, 1 <= n /\ name = format_branch_label n
            /\ name = "LOC_" +:+ fmt_06lu n.
Proof.
  intros Hscan Hk.
  destruct (scan_branch_labels_sections _ _ _ _ Hscan) as (log' & -> & Hsec & Hreplay).
  rewrite Hreplay in Hk.
  apply replay_stores_value in Hk as [Hk | Hin].
  - by rewrite lookup_empty in Hk.
  - destruct (scan_sections_names _ _ _ _ _ _ _ _ Hsec Hin) as (n & Hn & ->).
    exists n. repeat split; [done|]. apply format_branch_label_full.
  - eapply scan_sections_log; eauto.
Qed.

(** X14.  The scan touches the label table only: the container, the file
    name and every flag are as before. *)
Theorem scan_changes_only_the_label_table fuel st st' log :
  scan_branch_labels fuel st = Some (st', log) ->
  same_outside_labels st st'.
Proof.
  intros Hscan. destruct (scan_branch_labels_frame _ _ _ _ Hscan) as [-> _].
  repeat split.
Qed.

(** ** Sections with nothing to decode *)

Lemma scan_loop_empty fuel end_ pc_offset pc bn st :
  end_ <= pc -> scan_loop fuel end_ pc_offset pc bn st = Some (st, []).
Proof.
  intros Hge. destruct fuel; simpl; destruct (Z.ltb_spec pc end_); (lia || done).
Qed.

Lemma print_loop_empty fuel end_ pc_offset gp pc hist st :
  end_ <= pc -> print_loop fuel end_ pc_offset gp pc hist st = Some [].
Proof.
  intros Hge. destruct fuel; simpl; destruct (Z.ltb_spec pc end_); (lia || done).
Qed.

Lemma region_end_empty e shdr : sh_size shdr = 0 -> region_end e shdr = region_start e shdr.
Proof.
  intros Hsize. unfold region_end, region_start, elf_offset, wrap64.
  rewrite Hsize, Z.add_0_r. apply Z.mod_mod. lia.
Qed.

Lemma scan_sections_nothing fuel e l st :
  Forall (fun shdr => is_exec shdr = false \/ sh_size shdr = 0) l ->
  scan_sections fuel e l st = Some (st, []).
Proof.
  induction 1 as [|shdr rest Hshdr _ IH]; simpl; [done|].
  destruct (is_exec shdr) eqn:Hexec; [|exact IH].
  destruct Hshdr as [? | Hsize]; [congruence|].
  unfold scan_branch_labels_range.
  rewrite (scan_loop_empty fuel (region_end e shdr) (region_pc_offset e shdr)
             (region_start e shdr)) by (rewrite region_end_empty by done; lia).
  by rewrite IH.
Qed.

Lemma print_sections_nothing fuel gp st l :
  Forall (fun shdr => is_exec shdr = false \/ sh_size shdr = 0) l ->
  forall i, exists log,
    print_sections fuel gp i l st = Some log /\ Forall (is_section_title st) log.
Proof.
  induction 1 as [|shdr rest Hshdr _ IH]; intros i; simpl; [by exists []|].
  destruct (is_exec shdr) eqn:Hexec; [|apply IH].
  destruct Hshdr as [? | Hsize]; [congruence|].
  unfold print_disassembly_range.
  rewrite (print_loop_empty fuel (region_end (elf st) shdr)
             (region_pc_offset (elf st) shdr) gp (region_start (elf st) shdr))
    by (rewrite region_end_empty by done; lia).
  destruct (IH (S i)) as (log & -> & Hlog).
  eexists. split; [reflexivity|]. constructor; [by exists i | done].
Qed.

(** X8.  A container whose sections are all either not executable or of
    size zero gives, for any fuel, an empty label table after the scan, and
    a disassembly that consists of section titles only: no instruction is
    decoded and nothing fails. *)
Theorem nothing_to_decode fuel st :
  Forall (fun shdr => is_exec shdr = false \/ sh_size shdr = 0) (shdrs (elf st)) ->
  scan_branch_labels fuel st = Some (set_branch_labels ∅ st, [EvLabelsClear])
  /\ exists log,
       print_disassembly fuel st = Some log /\ Forall (is_section_title st) log.
Proof.
  intros Hall. split.
  - unfold scan_branch_labels. by rewrite scan_sections_nothing.
  - unfold print_disassembly. by apply print_sections_nothing.
Qed.

(** ** The positions the printer decodes *)



(** ** Addresses *)

(** X15.  The key stored for a branch at offset [d] of a section is the
    section's load address plus [d] plus the immediate, in 64-bit
    arithmetic: it does not depend on where the file image lies in
    memory. *)
Theorem branch_target_is_a_load_address e shdr d imm :
  branch_target (region_start e shdr + d) (region_pc_offset e shdr) imm
  = wrap64 (sh_addr shdr + d + imm).
Proof.
  unfold branch_target, region_pc_offset, wrap64.
  rewrite <- Zplus_mod_idemp_l, Zminus_mod_idemp_r, Zplus_mod_idemp_l.
  f_equal. lia.
Qed.

(** ** The front end *)

(** X10.  [parse_commandline] returns exactly when option parsing
    succeeded, one argument is left, the help flag is not set and some
    output section is requested; it then has printed nothing and has only
    stored that argument as the file name. *)
Theorem parse_commandline_accepts argv st0 result st1 :
  process_options options argv st0 = (result, st1) ->
  ((exists st' log, parse_commandline argv st0 = inl (st', log)) <->
   result.2 = true /\ length result.1 = 1%nat
   /\ help_or_error st1 = false /\ no_output_requested st1 = false)
  /\ (forall st' log,
        parse_commandline argv st0 = inl (st', log) ->
        log = [] /\ st' = set_filename (nth 0 result.1 EmptyString) st1).
Proof.
  intros Hopts. unfold parse_commandline. rewrite Hopts.
  destruct result as [args ok]. simpl.
  destruct ok; simpl.
  - destruct (Nat.eqb_spec (length args) 1) as [Hlen | Hlen]; simpl.
    + destruct (help_or_error st1) eqn:Hhelp; simpl.
      * split; [|by intros st' log [=]].
        split; [by intros (st' & log & [=]) | by intros (_ & _ & [=] & _)].
      * destruct (no_output_requested st1) eqn:Hnone; simpl.
        -- split; [|by intros st' log [=]].
           split; [by intros (st' & log & [=]) | by intros (_ & _ & _ & [=])].
        -- split; [split; eauto|].
           intros st' log [= <- <-]. split; [done|].
           destruct st1; simpl in *; by subst.
    + split; [|by intros st' log [=]].
      split; [by intros (st' & log & [=]) | by intros (_ & ? & _)].
  - split; [|by intros st' log [=]].
    split; [by intros (st' & log & [=]) | by intros ([=] & _)].
Qed.

Lemma option_fn_facts o1 o2 s1 s2 st :
  o1 ∈ options -> o2 ∈ options ->
  (option_fn o1 s1 st).1 = true
  /\ elf (option_fn o1 s1 st).2 = elf st
  /\ filename (option_fn o1 s1 st).2 = filename st
  /\ branch_labels (option_fn o1 s1 st).2 = branch_labels st
  /\ (option_fn o1 s1 (option_fn o1 s1 st).2).2 = (option_fn o1 s1 st).2
  /\ (option_fn o2 s2 (option_fn o1 s1 st).2).2
     = (option_fn o1 s1 (option_fn o2 s2 st).2).2.
Proof.
  unfold options. rewrite !elem_of_cons, !elem_of_nil. intros H1 H2.
  repeat match goal with
  | H : _ \/ _ |- _ => destruct H as [H | H]
  | H : False |- _ => destruct H
  end; subst; repeat split.
Qed.

Lemma apply_callbacks_frame l :
  Forall (fun p => p.1 ∈ options) l ->
  forall st,
    elf (apply_callbacks l st) = elf st
    /\ filename (apply_callbacks l st) = filename st
    /\ branch_labels (apply_callbacks l st) = branch_labels st.
Proof.
  induction 1 as [|[o s] l Ho _ IH]; intros st; [done|].
  change (apply_callbacks ((o, s) :: l) st)
    with (apply_callbacks l (option_fn o s st).2).
  destruct (IH (option_fn o s st).2) as (-> & -> & ->).
  destruct (option_fn_facts o o s s st Ho Ho) as (_ & He & Hf & Hl & _).
  done.
Qed.

Lemma apply_callbacks_perm l l' :
  l ≡ₚ l' ->
  Forall (fun p => p.1 ∈ options) l ->
  forall st, apply_callbacks l st = apply_callbacks l' st.
Proof.
  induction 1 as [|[o s] l l' Hperm IH|[o1 s1] [o2 s2] l|l1 l2 l3 H12 IH12 H23 IH23];
    intros Hall st.
  - reflexivity.
  - apply Forall_cons in Hall as [_ Hall]. by apply IH.
  - apply Forall_cons in Hall as [H2 Hall]. apply Forall_cons in Hall as [H1 _].
    simpl in H1, H2.
    change (apply_callbacks l (option_fn o1 s1 (option_fn o2 s2 st).2).2
            = apply_callbacks l (option_fn o2 s2 (option_fn o1 s1 st).2).2).
    f_equal. symmetry. apply (option_fn_facts o1 o2 s1 s2 st H1 H2).
  - rewrite IH12 by done. apply IH23.
    eapply Permutation_Forall; [|exact Hall]. done.
Qed.

(** X11.  Every option callback succeeds and leaves the container, the
    file name and the label table alone, and callbacks applied one after
    the other give the same object in every order: the object after a list
    of callbacks is the object after any permutation of the list. *)
Theorem option_callbacks_order_irrelevant l l' st :
  Forall (fun p => p.1 ∈ options) l ->
  l ≡ₚ l' ->
  apply_callbacks l st = apply_callbacks l' st
  /\ Forall (fun p => forall st0, (option_fn p.1 p.2 st0).1 = true) l
  /\ elf (apply_callbacks l st) = elf st
  /\ filename (apply_callbacks l st) = filename st
  /\ branch_labels (apply_callbacks l st) = branch_labels st.
Proof.
  intros Hall Hperm. split; [by apply apply_callbacks_perm|]. split.
  - eapply Forall_impl; [exact Hall|]. intros [o s] Ho st0. simpl in *.
    apply (option_fn_facts o o s s st0 Ho Ho).
  - by apply apply_callbacks_frame.
Qed.

(** ** Line widths *)

Lemma decimal_digits_one fuel n acc :
  0 <= n < 10 -> decimal_digits (S fuel) n acc = String (digit_char n) acc.
Proof.
  intros Hn. simpl. rewrite Z.div_small, Z.mod_small by lia. reflexivity.
Qed.

Lemma decimal_digits_step fuel n acc :
  decimal_digits (S fuel) n acc
  = if n / 10 =? 0 then String (digit_char (n mod 10)) acc
    else decimal_digits fuel (n / 10) (String (digit_char (n mod 10)) acc).
Proof. reflexivity. Qed.

Lemma decimal_digits_two fuel n acc :
  10 <= n < 100 ->
  decimal_digits (S (S fuel)) n acc
  = String (digit_char (n / 10)) (String (digit_char (n mod 10)) acc).
Proof.
  intros Hn. rewrite decimal_digits_step.
  destruct (Z.eqb_spec (n / 10) 0) as [Hdiv | _].
  - pose proof (Z.div_mod n 10). pose proof (Z.mod_pos_bound n 10). lia.
  - apply decimal_digits_one.
    split; [apply Z.div_pos; lia | apply Z.div_lt_upper_bound; lia].
Qed.

Lemma fmt_2lu_length n : 0 <= n < 100 -> String.length (fmt_2lu n) = 2%nat.
Proof.
  intros Hn. unfold fmt_2lu, fmt_lu, wrap64.
  rewrite Z.mod_small by lia. rewrite length_append, length_repeat_char.
  destruct (Z.lt_ge_cases n 10) as [Hlt | Hge].
  - rewrite (decimal_digits_one 19) by lia. reflexivity.
  - rewrite (decimal_digits_two 18) by lia. reflexivity.
Qed.

Lemma c_str_length s : (String.length (c_str s) <= String.length s)%nat.
Proof.
  induction s as [|c s IH]; simpl; [lia|].
  destruct (Ascii.eqb c "000"); simpl; lia.
Qed.

(** X12.  The heading text has the characters of the heading up to its
    first NUL, and dashes counted from the heading's whole length.  For a
    heading of at most 116 characters the text has 10 characters, the
    heading up to its first NUL, 116 minus the heading's length in dashes,
    and the two colour strings: 126 characters plus the colour strings
    when the heading holds no NUL, fewer when it does.  For a longer
    heading without NUL the dash count, computed in [size_t], wraps
    around: the text is 2^64 characters longer. *)
Theorem print_heading_width st heading :
  ((String.length heading <= 116)%nat ->
     String.length (print_heading st heading)
     = (10 + String.length (c_str heading) + (116 - String.length heading)
          + String.length (colorize st "header")
          + String.length (colorize st "reset"))%nat
     /\ (String.length (print_heading st heading)
         <= 126 + String.length (colorize st "header")
              + String.length (colorize st "reset"))%nat
     /\ (c_str heading = heading ->
         String.length (print_heading st heading)
         = (126 + String.length (colorize st "header")
              + String.length (colorize st "reset"))%nat))
  /\ ((116 < String.length heading)%nat ->
      Z.of_nat (String.length heading) < 2 ^ 64 ->
      c_str heading = heading ->
      Z.of_nat (String.length (print_heading st heading))
      = 2 ^ 64 + 126 + Z.of_nat (String.length (colorize st "header"))
          + Z.of_nat (String.length (colorize st "reset"))).
Proof.
  unfold print_heading. rewrite !length_append, length_repeat_char.
  change (String.length nl) with 1%nat.
  change (String.length "---[ ") with 5%nat.
  change (String.length " ]") with 2%nat.
  pose proof (c_str_length heading) as Hcut.
  unfold wrap64. split.
  - intros Hlen. rewrite Z.mod_small by lia.
    split; [lia|]. split; [lia|]. intros ->. lia.
  - intros Hlen Hmax ->.
    replace (116 - Z.of_nat (String.length heading))
      with (116 - Z.of_nat (String.length heading) + 2 ^ 64 + (-1) * 2 ^ 64) by lia.
    rewrite Z.mod_add by lia. rewrite Z.mod_small by lia. lia.
Qed.

(** X13.  For the first hundred sections the title line is as wide as a
    heading line when the section name has at most 111 characters, and a
    longer name is printed in full. *)
Theorem section_title_width st (i : nat) :
  (i < 100)%nat ->
  String.length (section_title st i)
  = (13 + Nat.max 111 (String.length (elf_shdr_name (elf st) i))
       + String.length (colorize st "title")
       + String.length (colorize st "reset"))%nat.
Proof.
  intros Hi. unfold section_title, fmt_left111.
  rewrite !length_append, length_repeat_char, fmt_2lu_length by lia.
  change (String.length nl) with 1%nat.
  change (String.length "Section[") with 8%nat.
  change (String.length "] ") with 2%nat.
  lia.
Qed.

(** ** Termination of the program *)

(** X16.  When, in every container that can be loaded, the decoder advances
    at every position of every executable section, and the fuel covers the
    longest of them, [main] terminates for every command line. *)
Theorem main_terminates_when_decoder_advances fuel argv :
  (forall file e,
     elf_load file = Some e -> Forall (section_walk_ends fuel e) (shdrs e)) ->
  is_Some (main fuel argv).
Proof.
  intros Hwalk. unfold main.
  destruct (parse_commandline argv riscv_parse_elf_init) as [[st log] | log]; [|eauto].
  destruct (run_terminates fuel st) as [[log' c] ->]; [eauto|].
  destruct c; eauto.
Qed.

(** ** How the program ends *)

Lemma parse_commandline_exit argv st log :
  parse_commandline argv st = inr log ->
  last log = Some (EvExit 9) /\ forall file, EvLoad file ∉ log.
Proof.
  unfold parse_commandline.
  destruct (process_options options argv st) as [[args ok] st1]. simpl.
  destruct (negb ok); simpl.
  - intros [= <-]. split; [reflexivity|].
    intros file. simpl. rewrite !elem_of_cons, elem_of_nil.
    intros H; repeat (destruct H as [H | H]; [discriminate H|]); exact H.
  - destruct (negb (length args =? 1)%nat); simpl.
    + intros [= <-]. split; [reflexivity|].
      intros file. simpl. rewrite !elem_of_cons, elem_of_nil.
    intros H; repeat (destruct H as [H | H]; [discriminate H|]); exact H.
    + destruct (help_or_error st1 || no_output_requested st1); simpl; [|discriminate].
      intros [= <-]. split; [reflexivity|].
      intros file. simpl. rewrite !elem_of_cons, elem_of_nil.
    intros H; repeat (destruct H as [H | H]; [discriminate H|]); exact H.
Qed.

Lemma parse_commandline_return argv st st' log :
  parse_commandline argv st = inl (st', log) -> log = [].
Proof.
  unfold parse_commandline.
  destruct (process_options options argv st) as [[args ok] st1]. simpl.
  destruct (negb ok); simpl; [discriminate|].
  destruct (negb (length args =? 1)%nat); simpl; [discriminate|].
  destruct (help_or_error st1 || no_output_requested st1); simpl; [discriminate|].
  by intros [= _ <-].
Qed.

Lemma run_log fuel st log c :
  run fuel st = Some (log, c) ->
  head log = Some (EvLoad (filename st))
  /\ match c with
     | Completed => last log = Some (EvPrintf nl)
     | LoadFailure => log = [EvLoad (filename st)]
     end.
Proof.
  unfold run. destruct (elf_load (filename st)) as [e|]; [|by intros [= <- <-]].
  simpl.
  destruct (disassebly st && (e_machine (ehdr e) =? EM_RISCV)).
  - destruct (run_disassembly fuel (set_elf e st)) as [log'|]; [|discriminate].
    intros [= <- <-]. split; [reflexivity|].
    rewrite app_comm_cons, app_assoc. apply last_snoc.
  - intros [= <- <-]. split; [reflexivity|].
    rewrite app_comm_cons. apply last_snoc.
Qed.

(** X17.  [main] ends in one of three ways.  It leaves through [exit] only
    with status 9, as its last action and without having loaded anything;
    it returns only 0, after a run that begins with the load and ends with
    the final newline; or the load fails, and the load is then all that
    happened. *)
Theorem main_outcomes fuel argv log t :
  main fuel argv = Some (log, t) ->
  match t with
  | Exited code =>
      code = 9 /\ last log = Some (EvExit 9) /\ (forall file, EvLoad file ∉ log)
  | Returned code =>
      code = 0 /\ (exists file, head log = Some (EvLoad file))
      /\ last log = Some (EvPrintf nl)
  | LoadFailed => exists file, log = [EvLoad file]
  end.
Proof.
  unfold main.
  destruct (parse_commandline argv riscv_parse_elf_init) as [[st log0] | log0] eqn:Hparse.
  - apply parse_commandline_return in Hparse as ->.
    destruct (run fuel st) as [[log' c]|] eqn:Hrun; [|discriminate].
    destruct (run_log _ _ _ _ Hrun) as [Hhead Hlast].
    destruct c; intros [= <- <-]; simpl.
    + split; [done|]. split; [eauto | done].
    + exists (filename st). done.
  - intros [= <- <-]. apply parse_commandline_exit in Hparse as [Hlast Hload].
    done.
Qed.

End MoreProperties.

(** * The further properties on the sample container *)

Import MoreSamples.

Example labels_restart_in_every_region :
  exists st' log,
    scan_branch_labels_range (ext := ext4) 12 4096 4108 pc_off st_full = Some (st', log)
    /\ log !! 0%nat = Some (EvLabelStore 65544 "LOC_000001").
Proof. eexists _, _. split; vm_compute; reflexivity. Qed.

(** X1 on the sample region: the third store carries [LOC_000003]. *)
Lemma region_labels_numbered_from_one_witness :
  scan_branch_labels_range (ext := ext4) 12 4096 4108 pc_off st_d
    = Some (st_region, log_region)
  /\ log_region !! 2%nat = Some (EvLabelStore 65540 "LOC_000003")
  /\ exists addr, EvLabelStore 65540 "LOC_000003"
                  = EvLabelStore addr (format_branch_label (1 + Z.of_nat 2)).
Proof.
  assert (Hscan : scan_branch_labels_range (ext := ext4) 12 4096 4108 pc_off st_d
                  = Some (st_region, log_region)) by (vm_compute; reflexivity).
  assert (Hi : log_region !! 2%nat = Some (EvLabelStore 65540 "LOC_000003"))
    by (vm_compute; reflexivity).
  split; [exact Hscan|]. split; [exact Hi|].
  exact (region_labels_numbered_from_one (ext := ext4) _ _ _ _ _ _ _ 2 _ Hscan Hi).
Defined.

(** X3 at the counters 7 and 1000000. *)
Lemma branch_label_determines_counter_witness :
  decimal_value (fmt_06lu 7) = 7
  /\ (format_branch_label 7 = format_branch_label 1000000 -> 7 = 1000000).
Proof.
  apply (branch_label_determines_counter 7 1000000); lia.
Defined.

(** X4 on the sample region: the first and the second store have the same
    address and different names. *)
Lemma region_label_names_distinct_witness :
  log_region !! 0%nat = Some (EvLabelStore 65544 "LOC_000001")
  /\ log_region !! 1%nat = Some (EvLabelStore 65544 "LOC_000002")
  /\ "LOC_000001" <> "LOC_000002".
Proof.
  assert (Hscan : scan_branch_labels_range (ext := ext4) 12 4096 4108 pc_off st_d
                  = Some (st_region, log_region)) by (vm_compute; reflexivity).
  assert (H0 : log_region !! 0%nat = Some (EvLabelStore 65544 "LOC_000001"))
    by (vm_compute; reflexivity).
  assert (H1 : log_region !! 1%nat = Some (EvLabelStore 65544 "LOC_000002"))
    by (vm_compute; reflexivity).
  split; [exact H0|]. split; [exact H1|].
  eapply (region_label_names_distinct (ext := ext4));
    [exact Hscan | vm_compute; reflexivity | exact H0 | exact H1 | lia].
Defined.

(** X5 on the sample region: [0x10008] keeps the name of the second
    store. *)
Lemma region_last_store_wins_witness :
  log_region = [EvLabelStore 65544 "LOC_000001"]
                 ++ EvLabelStore 65544 "LOC_000002" :: [EvLabelStore 65540 "LOC_000003"]
  /\ branch_labels st_region !! 65544 = Some "LOC_000002".
Proof.
  assert (Hscan : scan_branch_labels_range (ext := ext4) 12 4096 4108 pc_off st_d
                  = Some (st_region, log_region)) by (vm_compute; reflexivity).
  assert (Hlog : log_region = [EvLabelStore 65544 "LOC_000001"]
                   ++ EvLabelStore 65544 "LOC_000002" :: [EvLabelStore 65540 "LOC_000003"])
    by (vm_compute; reflexivity).
  split; [exact Hlog|].
  apply (region_last_store_wins (ext := ext4) _ _ _ _ _ _ _ _ _ _ _ Hscan Hlog).
  intros name' Hin. apply list_elem_of_singleton in Hin. discriminate.
Defined.

(** X6 on the sample container: [0x10004] is a key because the third
    instruction of [.text] targets it. *)
Lemma scanned_keys_are_the_branch_targets_witness :
  scan_branch_labels (ext := ext4) 12 st_d = Some (st_full, log_full)
  /\ is_Some (branch_labels st_full !! 65540).
Proof.
  assert (Hscan : scan_branch_labels (ext := ext4) 12 st_d = Some (st_full, log_full))
    by (vm_compute; reflexivity).
  split; [exact Hscan|].
  apply (scanned_keys_are_the_branch_targets (ext := ext4) _ _ _ _ 65540 Hscan).
  exists text_shdr, 4104. split; [by left|]. split; [reflexivity|].
  split; [|split; reflexivity].
  apply visited_later; [reflexivity|].
  apply visited_later; [reflexivity|].
  apply (visited_first (ext := ext4) _ 4104). reflexivity.
Defined.

(** X7 on the sample container. *)
Lemma scanned_names_are_labels_witness :
  branch_labels st_full !! 65544 = Some "LOC_000002"
  /\ exists n, 1 <= n /\ "LOC_000002" = format_branch_label n
               /\ "LOC_000002" = "LOC_" +:+ fmt_06lu n.
Proof.
  assert (Hscan : scan_branch_labels (ext := ext4) 12 st_d = Some (st_full, log_full))
    by (vm_compute; reflexivity).
  assert (Hk : branch_labels st_full !! 65544 = Some "LOC_000002")
    by (vm_compute; reflexivity).
  split; [exact Hk|].
  exact (scanned_names_are_labels (ext := ext4) _ _ _ _ _ _ Hscan Hk).
Defined.

(** X8 on a container with a data section and an empty executable
    section, with no fuel at all. *)
Lemma nothing_to_decode_witness :
  scan_branch_labels (ext := ext4) 0 st_nothing
    = Some (set_branch_labels ∅ st_nothing, [EvLabelsClear])
  /\ exists log,
       print_disassembly (ext := ext4) 0 st_nothing = Some log
       /\ Forall (is_section_title (ext := ext4) st_nothing) log.
Proof.
  apply (nothing_to_decode (ext := ext4) 0 st_nothing).
  simpl. constructor; [left; reflexivity|].
  constructor; [right; reflexivity|]. constructor.
Defined.


(** X10 on [prog -d a.out]. *)
Lemma parse_commandline_accepts_witness :
  exists st' log,
    parse_commandline (ext := ext4) ["prog"; "-d"; "a.out"] riscv_parse_elf_init
      = inl (st', log).
Proof.
  apply (proj1 (parse_commandline_accepts (ext := ext4) ["prog"; "-d"; "a.out"]
                  riscv_parse_elf_init (["a.out"], true)
                  (set_disassebly true riscv_parse_elf_init) eq_refl)).
  repeat split.
Defined.

(** X11 for [-c] and [-a], in both orders. *)
Lemma option_callbacks_order_irrelevant_witness :
  apply_callbacks [(opt_color, EmptyString); (opt_all, EmptyString)] st_d
  = apply_callbacks [(opt_all, EmptyString); (opt_color, EmptyString)] st_d.
Proof.
  apply (option_callbacks_order_irrelevant
           [(opt_color, EmptyString); (opt_all, EmptyString)]
           [(opt_all, EmptyString); (opt_color, EmptyString)] st_d).
  - constructor; [|constructor; [|constructor]]; simpl; unfold options.
    + rewrite elem_of_cons. by left.
    + rewrite !elem_of_cons. do 6 right. by left.
  - apply perm_swap.
Defined.

Example print_heading_stops_at_nul :
  String.length heading_with_nul = 5%nat
  /\ String.length (print_heading (ext := ext4) st_d heading_with_nul) = 123%nat.
Proof. vm_compute. split; reflexivity. Qed.

(** X12 for the heading of the disassembly and for a heading with a NUL,
    away from a terminal. *)
Lemma print_heading_width_witness :
  String.length (print_heading (ext := ext4) st_d "Disassembly") = 126%nat
  /\ String.length (print_heading (ext := ext4) st_d heading_with_nul)
     = (10 + 2 + (116 - 5))%nat.
Proof.
  split.
  - apply (proj1 (print_heading_width (ext := ext4) st_d "Disassembly")).
    + simpl. lia.
    + reflexivity.
  - apply (proj1 (print_heading_width (ext := ext4) st_d heading_with_nul)).
    simpl. lia.
Defined.

(** X13 for the title of [.text]. *)
Lemma section_title_width_witness :
  String.length (section_title (ext := ext4) st_d 0) = 124%nat.
Proof. apply (section_title_width (ext := ext4) st_d 0). lia. Defined.

(** X14 on the sample container. *)
Lemma scan_changes_only_the_label_table_witness :
  scan_branch_labels (ext := ext4) 12 st_d = Some (st_full, log_full)
  /\ same_outside_labels st_d st_full.
Proof.
  assert (Hscan : scan_branch_labels (ext := ext4) 12 st_d = Some (st_full, log_full))
    by (vm_compute; reflexivity).
  split; [exact Hscan|].
  exact (scan_changes_only_the_label_table (ext := ext4) _ _ _ _ Hscan).
Defined.

Lemma sample_sections_walk_end e :
  buf e = 4096 -> shdrs e = [text_shdr; data_shdr] ->
  Forall (section_walk_ends (ext := ext4) 12 e) (shdrs e).
Proof.
  intros Hbuf ->. constructor; [|constructor; [|constructor]].
  - intros _. unfold region_end, region_start, elf_offset. rewrite Hbuf.
    split; [|vm_compute; lia].
    intros pc Hpc. unfold next_pc_of. simpl. lia.
  - intros Hexec. discriminate Hexec.
Qed.

(** X16 with the four-byte decoder: every command line ends. *)
Lemma main_terminates_when_decoder_advances_witness :
  is_Some (main (ext := ext4) 12 ["prog"; "-d"; "a.out"]).
Proof.
  apply (main_terminates_when_decoder_advances (ext := ext4)).
  intros file e. simpl. unfold load.
  destruct (String.eqb file "a.out").
  - intros [= <-]. by apply sample_sections_walk_end.
  - destruct (String.eqb file "x86.out"); [|discriminate].
    intros [= <-]. by apply sample_sections_walk_end.
Defined.

(** X17 on [prog -d a.out] and on [prog]. *)
Lemma main_outcomes_witness :
  (exists log, main (ext := ext4) 12 ["prog"; "-d"; "a.out"] = Some (log, Returned 0)
               /\ last log = Some (EvPrintf nl))
  /\ (exists log, main (ext := ext4) 12 ["prog"] = Some (log, Exited 9)
                  /\ last log = Some (EvExit 9)).
Proof.
  split.
  - eexists. split; [vm_compute; reflexivity|].
    refine (proj2 (proj2 (main_outcomes (ext := ext4) 12 ["prog"; "-d"; "a.out"]
                            _ (Returned 0) _))).
    vm_compute. reflexivity.
  - eexists. split; [vm_compute; reflexivity|].
    refine (proj1 (proj2 (main_outcomes (ext := ext4) 12 ["prog"] _ (Exited 9) _))).
    vm_compute. reflexivity.
Defined.

(** C7: with the colour flag off and standard output not a terminal, the
    colorizer returns the empty string for every tag, and the output of
    [prog -d esc.out] still holds an escape byte: the section title prints
    the section's name as it is. *)
Lemma closed_gate_output_has_escape :
  enable_color st_esc = false
  /\ isatty_stdout (Externals := ext_esc) = false
  /\ (forall type, colorize (ext := ext_esc) st_esc type = EmptyString)
  /\ has_esc (elf_shdr_name (elf st_esc) 0) = true
  /\ exists log,
       main (ext := ext_esc) 12 ["prog"; "-d"; "esc.out"] = Some (log, Returned 0)
       /\ EvPrintf (section_title (ext := ext_esc) st_esc 0) ∈ log
       /\ has_esc (output_text log) = true.
Proof.
  split; [reflexivity|]. split; [reflexivity|]. split; [intros type; reflexivity|].
  split; [reflexivity|].
  eexists. split; [vm_compute; reflexivity|]. split.
  - vm_compute. do 6 right. by left.
  - vm_compute. reflexivity.
Qed.
